(** * projet_ml_retail: the column-pruning script and the analysis helpers

    A shallow embedding of [src/preprocessing.py] and [src/utils.py].

    The two Python files are glue code over pandas.  The embedding has three
    layers:

    - [Pandas]: the dataframe operations the code calls ([nunique],
      [value_counts], [isna], [drop], [select_dtypes], [quantile], [corr] ...)
      on a table made of named, typed columns;
    - [Preprocessing]: the script of [preprocessing.py], run in a small
      state-and-exception monad over a store of dataframe objects, because the
      script works through two references ([df] and [df_clean]) and drops
      columns in place;
    - [Utils]: the helpers of [utils.py], as functions that return a value or
      raise.

    Numbers are exact rationals ([Q]).  Every finite float is a rational, and
    on a table of any realistic size (below 10^14 rows) the comparisons of a
    quotient of two counts with 0.95 and with 0.4 have the same outcome on
    the exact quotient as on its correctly rounded float.  A missing value
    (NaN) is [None]; every comparison with NaN is false, as in pandas.  The
    Pearson coefficient is in general irrational, so it is an operation of
    the interface [CorrLib]: the theorems hold for every implementation of
    it, the floating-point one included, and [exact_corr] is the one used on
    the sample tables.

    The values [analyser_nan] and [analyser_correlation] round are floats
    in the source, and so are the values they round to: next to a middle of
    two decimals the float can fall on the other side than the rational, and
    the result is the float next to a decimal.  What the theorems say of a
    rounded value is [rounded_to], which is true of both.

    The plotting library is the interface [PlotLib]: a drawing call returns
    or raises, as the library decides, and an exception ends the function
    that made the call.

    A table has unique column names and columns as long as its index ([wf]);
    the properties of the script and of the helpers that look a column up are
    stated for such tables.  The [print] calls of the other helpers, and
    [sauvegarder_graphique], which only saves a figure, are left out. *)

From Stdlib Require Import List String ZArith QArith Qabs Qround Lia Bool.
From Stdlib Require Import Permutation Sorted Lqa.
From stdpp Require Import base gmap strings.
Import ListNotations.

Open Scope string_scope.

(** ** Exceptions *)

Inductive Exception : Type :=
| KeyError (labels : list string)
| ValueError (msg : string)
| TypeError (msg : string).

(** A computation that returns or raises. *)
Definition Exc (A : Type) : Type := Exception + A.

Definition ret {A} (a : A) : Exc A := inr a.
Definition raise {A} (e : Exception) : Exc A := inl e.
Definition bind {A B} (c : Exc A) (k : A -> Exc B) : Exc B :=
  match c with
  | inl e => inl e
  | inr a => k a
  end.

(** ** Numbers with NaN *)

Module Num.

Definition Qltb (a b : Q) : bool := negb (Qle_bool b a).

(** [x > t], [x < t] and [x >= t] on a value that may be NaN. *)
Definition gt (x : option Q) (t : Q) : bool :=
  match x with Some v => Qltb t v | None => false end.
Definition lt (x : option Q) (t : Q) : bool :=
  match x with Some v => Qltb v t | None => false end.
Definition ge (x : option Q) (t : Q) : bool :=
  match x with Some v => Qle_bool t v | None => false end.

(** Comparisons where the right-hand side may be NaN as well. *)
Definition lt2 (x y : option Q) : bool :=
  match y with Some t => lt x t | None => false end.
Definition gt2 (x y : option Q) : bool :=
  match y with Some t => gt x t | None => false end.

Definition abs (x : option Q) : option Q := option_map Qabs x.

(** Arithmetic propagates NaN. *)
Definition sub (x y : option Q) : option Q :=
  match x, y with Some a, Some b => Some (a - b)%Q | _, _ => None end.
Definition add (x y : option Q) : option Q :=
  match x, y with Some a, Some b => Some (a + b)%Q | _, _ => None end.
Definition scale (k : Q) (x : option Q) : option Q :=
  option_map (Qmult k) x.

(** Rounding to the nearest integer, ties to the even one. *)
Definition round_half_even (x : Q) : Z :=
  let f := Qfloor x in
  let r := (x - inject_Z f)%Q in
  if Qltb r (1 # 2) then f
  else if Qltb (1 # 2) r then (f + 1)%Z
  else if Z.even f then f else (f + 1)%Z.

(** [round(x, d)]. *)
Definition round (x : Q) (d : nat) : Q :=
  let s := (10 ^ Z.of_nat d)%Z in
  Qred (inject_Z (round_half_even (x * inject_Z s)) / inject_Z s)%Q.

(** The largest element of a list, NaN when there is none. *)
Fixpoint max (l : list Q) : option Q :=
  match l with
  | [] => None
  | x :: l' =>
      match max l' with
      | None => Some x
      | Some m => Some (if Qltb x m then m else x)
      end
  end.

(** Ascending insertion sort. *)
Fixpoint insert (x : Q) (l : list Q) : list Q :=
  match l with
  | [] => [x]
  | y :: l' => if Qle_bool x y then x :: l else y :: insert x l'
  end.
Definition sort (l : list Q) : list Q := fold_right insert [] l.

End Num.

(** ** The dataframe model *)

Module Pandas.

(** A column holds values of one logical type; [None] is a missing value. *)
Inductive Series : Type :=
| NumCol (values : list (option Q))
| ObjCol (values : list (option string)).

(** A table: an index of [nrows] rows and an ordered sequence of named
    columns. *)
Record DataFrame : Type := mkDF {
  nrows : nat;
  cols : list (string * Series)
}.

Definition series_len (s : Series) : nat :=
  match s with
  | NumCol l => length l
  | ObjCol l => length l
  end.

(** [df.columns] *)
Definition columns (df : DataFrame) : list string := map fst (cols df).

(** [len(df)] and [df.shape] *)
Definition len (df : DataFrame) : nat := nrows df.
Definition shape (df : DataFrame) : nat * nat := (nrows df, length (cols df)).

(** [df.empty]: one of the two axes has length 0. *)
Definition empty (df : DataFrame) : bool :=
  (nrows df =? 0)%nat || (length (cols df) =? 0)%nat.

(** The invariant of a table: unique column names, and every column as long
    as the index. *)
Definition wf (df : DataFrame) : Prop :=
  List.NoDup (columns df) /\
  Forall (fun c => series_len (snd c) = nrows df) (cols df).

(** [name in df.columns] *)
Definition has_column (df : DataFrame) (name : string) : bool :=
  existsb (String.eqb name) (columns df).

(** [df[name]]: the column of that name, [KeyError] when there is none. *)
Definition getitem (df : DataFrame) (name : string) : Exc Series :=
  match List.find (fun c => String.eqb name (fst c)) (cols df) with
  | Some c => ret (snd c)
  | None => raise (KeyError [name])
  end.

(** [df[mask]] with a boolean mask over the rows: the rows where the mask
    is true. *)
Definition mask_list {A} (mask : list bool) (l : list A) : list A :=
  map snd (List.filter (fun bx : bool * A => fst bx) (combine mask l)).

Definition mask_series (mask : list bool) (s : Series) : Series :=
  match s with
  | NumCol l => NumCol (mask_list mask l)
  | ObjCol l => ObjCol (mask_list mask l)
  end.

Definition bool_index (df : DataFrame) (mask : list bool) : DataFrame :=
  mkDF (length (List.filter (fun b : bool => b) mask))
       (map (fun c => (fst c, mask_series mask (snd c))) (cols df)).

(** The table without the columns named in [labels]. *)
Definition dropped (labels : list string) (df : DataFrame) : DataFrame :=
  mkDF (nrows df)
    (List.filter (fun c => negb (existsb (String.eqb (fst c)) labels))
       (cols df)).

(** [df.drop(columns=labels)]: raises [KeyError] with the labels that are
    not column names, and otherwise removes every listed column. *)
Definition drop (labels : list string) (df : DataFrame) : Exc DataFrame :=
  match List.filter (fun l => negb (has_column df l)) labels with
  | [] => ret (dropped labels df)
  | missing => raise (KeyError missing)
  end.

(** *** Statistics of one column *)

Section Values.
Context {A : Type} (eqb : A -> A -> bool).

(** [dropna] *)
Fixpoint dropna (l : list (option A)) : list A :=
  match l with
  | [] => []
  | Some x :: l' => x :: dropna l'
  | None :: l' => dropna l'
  end.

Definition count (x : A) (l : list A) : nat :=
  length (List.filter (eqb x) l).

(** The distinct values, in the order of their first occurrence. *)
Fixpoint unique (l : list A) : list A :=
  match l with
  | [] => []
  | x :: l' => x :: List.filter (fun y => negb (eqb x y)) (unique l')
  end.

(** Number of missing values. *)
Definition count_na (l : list (option A)) : nat :=
  length (List.filter (fun c => match c with None => true | Some _ => false end) l).

(** [value_counts()]: every distinct non-missing value with its number of
    occurrences.  pandas orders the result by decreasing count; the code
    only takes its maximum. *)
Definition value_counts_of (l : list (option A)) : list (A * nat) :=
  let xs := dropna l in
  map (fun v => (v, count v xs)) (unique xs).

(** [value_counts(normalize=True)]: the counts divided by their sum, that
    is by the number of non-missing values. *)
Definition value_shares_of (l : list (option A)) : list (A * Q) :=
  let total := length (dropna l) in
  map (fun vc => (fst vc, Z.of_nat (snd vc) # Pos.of_nat total))
      (value_counts_of l).
End Values.

(** [s.nunique()]: the number of distinct non-missing values. *)
Definition nunique (s : Series) : nat :=
  match s with
  | NumCol l => length (unique Qeq_bool (dropna l))
  | ObjCol l => length (unique String.eqb (dropna l))
  end.

(** [s.value_counts(normalize=True).max()], NaN when the column has no
    value. *)
Definition max_share (s : Series) : option Q :=
  match s with
  | NumCol l => Num.max (map snd (value_shares_of Qeq_bool l))
  | ObjCol l => Num.max (map snd (value_shares_of String.eqb l))
  end.

(** [s.isna().sum()] *)
Definition isna_sum (s : Series) : nat :=
  match s with
  | NumCol l => count_na l
  | ObjCol l => count_na l
  end.

(** [s.isna().mean()]: the share of missing values, NaN on an empty
    column. *)
Definition isna_mean (s : Series) : option Q :=
  match series_len s with
  | O => None
  | S _ => Some (Z.of_nat (isna_sum s) # Pos.of_nat (series_len s))
  end.

(** [pd.api.types.is_numeric_dtype(s)] *)
Definition is_numeric_dtype (s : Series) : bool :=
  match s with
  | NumCol _ => true
  | ObjCol _ => false
  end.

(** [df.select_dtypes(include=number)] *)
Definition select_dtypes_number (df : DataFrame) : DataFrame :=
  mkDF (nrows df) (List.filter (fun c => is_numeric_dtype (snd c)) (cols df)).

Definition numeric_values (s : Series) : list (option Q) :=
  match s with
  | NumCol l => l
  | ObjCol _ => []
  end.

(** [s.quantile(q)] with linear interpolation: the missing values are
    skipped, the rest is sorted, and the value at the fractional position
    [(n - 1) * q] is interpolated between its two neighbours. *)
Definition quantile (l : list (option Q)) (q : Q) : option Q :=
  let xs := Num.sort (dropna l) in
  match xs with
  | [] => None
  | x0 :: _ =>
      let h := (inject_Z (Z.of_nat (length xs - 1)) * q)%Q in
      let i := Z.to_nat (Qfloor h) in
      let frac := (h - inject_Z (Qfloor h))%Q in
      let a := nth i xs x0 in
      let b := nth (Nat.min (i + 1) (length xs - 1)) xs x0 in
      Some (Qred (a + frac * (b - a)))%Q
  end.

(** *** Correlation *)

(** The Pearson coefficient of two numeric columns over the rows where both
    have a value, NaN when it is undefined. *)
Class CorrLib : Type := {
  pearson : list (option Q) -> list (option Q) -> option Q
}.

(** A square frame of numbers labelled by column names on both axes. *)
Record Matrix : Type := mkMatrix {
  labels : list string;
  rows : list (list (option Q))
}.

(** [m.iloc[i, j]] *)
Definition iloc (m : Matrix) (i j : nat) : option Q :=
  nth j (nth i (rows m) []) None.

(** The [j]-th column of the frame, top to bottom. *)
Definition matrix_col (m : Matrix) (j : nat) : list (option Q) :=
  map (fun r => nth j r None) (rows m).

(** [df.corr()] on a frame of numeric columns. *)
Definition corr `{CorrLib} (df : DataFrame) : Matrix :=
  let vs := map (fun c => numeric_values (snd c)) (cols df) in
  mkMatrix (columns df) (map (fun a => map (fun b => pearson a b) vs) vs).

(** [m.abs()] *)
Definition matrix_abs (m : Matrix) : Matrix :=
  mkMatrix (labels m) (map (map Num.abs) (rows m)).

(** [np.triu(np.ones((n, n)), k).astype(bool)]: true at [(i, j)] when
    [j >= i + k]. *)
Definition triu_ones (n k : nat) : list (list bool) :=
  map (fun i => map (fun j => (i + k <=? j)%nat) (seq 0 n)) (seq 0 n).

(** [m.where(mask)]: NaN where the mask is false. *)
Definition matrix_where (m : Matrix) (mask : list (list bool)) : Matrix :=
  mkMatrix (labels m)
    (map (fun rm : list (option Q) * list bool =>
            map (fun xb : option Q * bool => if snd xb then fst xb else None)
                (combine (fst rm) (snd rm)))
         (combine (rows m) mask)).

(** *** A reference implementation of the coefficient *)

(** The rows where both columns have a value. *)
Fixpoint complete_pairs (a b : list (option Q)) : list (Q * Q) :=
  match a, b with
  | Some x :: a', Some y :: b' => (x, y) :: complete_pairs a' b'
  | _ :: a', _ :: b' => complete_pairs a' b'
  | _, _ => []
  end.

Definition Qsum (l : list Q) : Q := fold_right Qplus 0%Q l.

(** Square root of a non-negative rational to 18 decimals, exact on the
    square of a rational. *)
Definition Qsqrt (x : Q) : Q :=
  let s := (10 ^ 18)%Z in
  let n := (Qnum x * Zpos (Qden x))%Z in
  Qmake (Z.sqrt (n * s * s)) (Qden x * Z.to_pos s).

Definition exact_pearson (a b : list (option Q)) : option Q :=
  let ps := complete_pairs a b in
  match ps with
  | [] => None
  | _ :: _ =>
      let n := inject_Z (Z.of_nat (length ps)) in
      let mx := (Qsum (map fst ps) / n)%Q in
      let my := (Qsum (map snd ps) / n)%Q in
      let sxy := Qsum (map (fun p => (fst p - mx) * (snd p - my))%Q ps) in
      let sxx := Qsum (map (fun p => (fst p - mx) * (fst p - mx))%Q ps) in
      let syy := Qsum (map (fun p => (snd p - my) * (snd p - my))%Q ps) in
      if Qeq_bool (sxx * syy) 0 then None
      else Some (Qred (sxy / Qsqrt (Qred (sxx * syy))))
  end.

Definition exact_corr : CorrLib := {| pearson := exact_pearson |}.

End Pandas.

(** ** [src/preprocessing.py] *)

Module Preprocessing.
Import Pandas.

(** *** The store of dataframe objects *)

(** A Python variable holds a reference to a dataframe object. *)
Definition ref : Type := positive.

(** What the script sends to the outside. *)
Inductive Output : Type :=
| PrintShape (label : string) (s : nat * nat)
| PrintLine (line : string)
| MakeDirs (path : string)
| ToCsv (path : string) (df : DataFrame).

Record Store : Type := mkStore {
  heap : gmap ref DataFrame;
  output : list Output
}.

(** A statement returns with a new store, raises with the store it has
    reached, or is stuck on a reference to no object (which a reference
    obtained from [new] never is). *)
Inductive Outcome (A : Type) : Type :=
| Done (a : A) (st : Store)
| Raised (e : Exception) (st : Store)
| Stuck.
Arguments Done {A} a st.
Arguments Raised {A} e st.
Arguments Stuck {A}.

Definition M (A : Type) : Type := Store -> Outcome A.

Definition mret {A} (a : A) : M A := fun st => Done a st.
Definition mbind {A B} (c : M A) (k : A -> M B) : M B :=
  fun st =>
    match c st with
    | Done a st' => k a st'
    | Raised e st' => Raised e st'
    | Stuck => Stuck
    end.

Declare Scope py_scope.
Delimit Scope py_scope with py.
Notation "x <- c ;; k" := (mbind c (fun x => k))
  (at level 100, c at next level, right associativity) : py_scope.
Notation "c ;;; k" := (mbind c (fun _ => k))
  (at level 100, right associativity) : py_scope.
Open Scope py_scope.

(** A pure computation that may raise, run as a statement. *)
Definition lift {A} (c : Exc A) : M A :=
  fun st =>
    match c with
    | inl e => Raised e st
    | inr a => Done a st
    end.

(** A new object. *)
Definition new (df : DataFrame) : M ref :=
  fun st =>
    let l := fresh (dom (heap st)) in
    Done l (mkStore (<[l := df]> (heap st)) (output st)).

(** The object a reference points to. *)
Definition deref (r : ref) : M DataFrame :=
  fun st =>
    match heap st !! r with
    | Some df => Done df st
    | None => Stuck
    end.

(** Overwrite the object a reference points to. *)
Definition assign (r : ref) (df : DataFrame) : M unit :=
  fun st => Done tt (mkStore (<[r := df]> (heap st)) (output st)).

Definition emit (o : Output) : M unit :=
  fun st => Done tt (mkStore (heap st) (output st ++ [o])).

(** [r.copy()]: a new object with the same content. *)
Definition copy (r : ref) : M ref :=
  df <- deref r ;; new df.

(** [r.drop(columns=labels, inplace=True)]: the object behind [r] loses the
    columns; every reference to it sees the change. *)
Definition drop_inplace (r : ref) (labels : list string) : M unit :=
  df <- deref r ;;
  df' <- lift (drop labels df) ;;
  assign r df'.

(** *** The removal set of each step *)

(** Step 2: [[col for col in df.columns if df[col].nunique() <= 1]].  The
    names of a table are unique, so the pairs of [cols df] are the names
    with their [df[col]]. *)
Definition constant_cols (df : DataFrame) : list string :=
  map fst (List.filter (fun c => (nunique (snd c) <=? 1)%nat) (cols df)).

(** Step 3: [df[col].value_counts(normalize=True).max() > 0.95]. *)
Definition quasi_const_cols (df : DataFrame) : list string :=
  map fst (List.filter (fun c => Num.gt (max_share (snd c)) (95 # 100))
             (cols df)).

(** Step 4: the fixed list, restricted to the names that exist. *)
Definition denylist : list string :=
  ["CustomerID"; "LastLoginIP"; "RegistrationDate";
   "IP_privee"; "Country_encoded";
   "UniqueCountries"; "ZeroPriceCount"].

Definition cols_to_remove (df : DataFrame) : list string :=
  List.filter (fun c => has_column df c) denylist.

(** Step 5: [df.columns[df.isna().mean() > threshold]]. *)
Definition threshold : Q := 4 # 10.

Definition cols_trop_nan (df : DataFrame) : list string :=
  map fst (List.filter (fun c => Num.gt (isna_mean (snd c)) threshold)
             (cols df)).

(** [l.remove(x)]: removes the first occurrence, raises when there is
    none. *)
Fixpoint list_remove (x : string) (l : list string) : Exc (list string) :=
  match l with
  | [] => raise (ValueError "list.remove(x): x not in list")
  | y :: l' =>
      if String.eqb x y then ret l'
      else bind (list_remove x l') (fun r => ret (y :: r))
  end.

Section Correlation.
Context `{CorrLib}.

(** Step 6, the frame the selection is made from. *)
Definition upper_triangle (df : DataFrame) : Matrix :=
  let corr_matrix := matrix_abs (corr (select_dtypes_number df)) in
  matrix_where corr_matrix (triu_ones (length (labels corr_matrix)) 1).

(** [[col for col in upper_triangle.columns
      if any(upper_triangle[col] > 0.9)]]: the list [high_corr_cols] as
    the comprehension builds it.  The [j]-th name of the frame labels
    its [j]-th column. *)
Definition high_before_protection (df : DataFrame) : list string :=
  let upper := upper_triangle df in
  map snd
    (List.filter
       (fun jc => existsb (fun x => Num.gt x (9 # 10))
                    (matrix_col upper (fst jc)))
       (combine (seq 0 (length (labels upper))) (labels upper))).

(** The list after the target is taken out, when it is in it. *)
Definition high_corr_cols (df : DataFrame) : Exc (list string) :=
  let high := high_before_protection df in
  if existsb (String.eqb "Churn") high
  then list_remove "Churn" high
  else ret high.

(** *** The script *)

(** One step: compute a removal set from the current content of
    [df_clean] and drop it in place. *)
Definition prune_step (df_clean : ref)
    (removal : DataFrame -> Exc (list string)) : M unit :=
  cur <- deref df_clean ;;
  labels <- lift (removal cur) ;;
  drop_inplace df_clean labels.

(** The script, from the table [pd.read_csv] returned; it ends with the
    references held by [df] and [df_clean]. *)
Definition main (raw : DataFrame) : M (ref * ref) :=
  df <- new raw ;;
  df_clean <- copy df ;;
  s <- deref df_clean ;;
  (emit (PrintShape "Shape initial :" (shape s)) ;;;
   prune_step df_clean (fun cur => ret (constant_cols cur)) ;;;
   prune_step df_clean (fun cur => ret (quasi_const_cols cur)) ;;;
   prune_step df_clean (fun cur => ret (cols_to_remove cur)) ;;;
   prune_step df_clean (fun cur => ret (cols_trop_nan cur)) ;;;
   prune_step df_clean high_corr_cols ;;;
   (s' <- deref df_clean ;;
    (emit (PrintShape "Shape final :" (shape s')) ;;;
     emit (MakeDirs "../projet_ml_retail/data/processed") ;;;
     emit (ToCsv "C:/projet/projet_ml_retail/data/processed/data_cleaned_v2.csv" s') ;;;
     emit (PrintLine "✔ Dataset nettoyé sauvegardé avec succès") ;;;
     mret (df, df_clean)))).

(** The five filters as a function of the table: what the script leaves
    in [df_clean]. *)
Definition prune (raw : DataFrame) : Exc DataFrame :=
  bind (drop (constant_cols raw) raw) (fun t1 =>
  bind (drop (quasi_const_cols t1) t1) (fun t2 =>
  bind (drop (cols_to_remove t2) t2) (fun t3 =>
  bind (drop (cols_trop_nan t3) t3) (fun t4 =>
  bind (high_corr_cols t4) (fun high =>
  drop high t4))))).
End Correlation.

(** The table after each of the first four steps, when none raises. *)
Definition after_constant (raw : DataFrame) : DataFrame :=
  dropped (constant_cols raw) raw.
Definition after_quasi (raw : DataFrame) : DataFrame :=
  dropped (quasi_const_cols (after_constant raw)) (after_constant raw).
Definition after_denylist (raw : DataFrame) : DataFrame :=
  dropped (cols_to_remove (after_quasi raw)) (after_quasi raw).
Definition after_missing (raw : DataFrame) : DataFrame :=
  dropped (cols_trop_nan (after_denylist raw)) (after_denylist raw).

(** The references [new] gives to [df] and then to [df_clean] on a
    store. *)
Definition ref_df (st : Store) : ref := fresh (dom (heap st)).
Definition ref_df_clean (st : Store) (raw : DataFrame) : ref :=
  fresh (dom (<[ref_df st := raw]> (heap st))).

End Preprocessing.

(** ** [src/utils.py] *)

Module Utils.
Import Pandas.

(** [sort_values(key, ascending=False)]: rows by decreasing key.  pandas
    does not fix the order of rows with equal keys; here they keep their
    order, and no property below depends on it. *)
Section SortValues.
Context {A : Type} (key : A -> Q).

Fixpoint insert_desc (x : A) (l : list A) : list A :=
  match l with
  | [] => [x]
  | y :: l' =>
      if Qle_bool (key y) (key x) then x :: l else y :: insert_desc x l'
  end.

Definition sort_values_desc (l : list A) : list A :=
  fold_right insert_desc [] l.
End SortValues.

(** *** [analyser_nan] *)

(** A row of the summary: the column (the index of the report), the number
    of missing values and their percentage. *)
Record NanRow : Type := mkNanRow {
  nan_column : string;
  Nb_NaN : nat;
  Pourcentage : Q
}.

(** [None] is Python's [None]; [Some r] is the report, a dataframe with
    the rows [r]. *)
Definition analyser_nan (df : DataFrame) : option (list NanRow) :=
  if empty df then None
  else
    let total_nan := map (fun c => (fst c, isna_sum (snd c))) (cols df) in
    let pourcentage :=
      map (fun cn : string * nat =>
             (fst cn, ((Z.of_nat (snd cn) # Pos.of_nat (len df)) * 100)%Q))
          total_nan in
    let resume :=
      map (fun tp : (string * nat) * (string * Q) =>
             mkNanRow (fst (fst tp)) (snd (fst tp))
                      (Num.round (snd (snd tp)) 2))
          (combine total_nan pourcentage) in
    let resume := List.filter (fun r => (0 <? Nb_NaN r)%nat) resume in
    Some (sort_values_desc Pourcentage resume).

(** *** [detecter_outliers] *)

Definition detecter_outliers (df : DataFrame) (colonne : string)
  : Exc (nat * option Q * option Q) :=
  if negb (has_column df colonne)
  then raise (ValueError "Colonne inexistante.")
  else
    bind (getitem df colonne) (fun s =>
    if negb (is_numeric_dtype s)
    then raise (TypeError "La colonne doit être numérique.")
    else
      let v := numeric_values s in
      let Q1 := quantile v (25 # 100) in
      let Q3 := quantile v (75 # 100) in
      let IQR := Num.sub Q3 Q1 in
      let borne_inf := Num.sub Q1 (Num.scale (15 # 10) IQR) in
      let borne_sup := Num.add Q3 (Num.scale (15 # 10) IQR) in
      let mask :=
        map (fun x => Num.lt2 x borne_inf || Num.gt2 x borne_sup) v in
      let outliers := bool_index df mask in
      ret (len outliers, borne_inf, borne_sup)).

(** *** [afficher_distribution] *)

(** The drawing commands handed to the plotting library. *)
Inductive Plot : Type :=
| Subplots (nrow ncol : nat)
| HistPlot (data : Series) (bins : nat) (kde : bool) (axis : nat)
| BoxPlot (data : Series) (axis : nat)
| SetTitle (axis : nat) (title : string)
| Heatmap (m : Matrix)
| Title (title : string)
| TightLayout
| Show.

(** The plotting library (matplotlib with seaborn) is no code of the
    repository: it carries out a drawing command, or raises.  Its [histplot]
    hands [bins] to numpy, which refuses an integer that is not positive. *)
Class PlotLib : Type := {
  draw : Plot -> Exc unit
}.

(** A library that refuses a histogram without bins and draws everything
    else: the one used on the sample tables. *)
Definition positive_bins : PlotLib :=
  {| draw p :=
       match p with
       | HistPlot _ O _ _ =>
           raise (ValueError "`bins` must be positive, when an integer")
       | _ => ret tt
       end |}.

(** What statements that draw leave behind: the commands carried out, in
    order, and [ret tt] or the exception that ended them. *)
Definition Drawing : Type := (list Plot * Exc unit)%type.

Section Plotting.
Context `{PlotLib}.

(** A call of the plotting library, followed by the rest of the body. *)
Definition call (p : Plot) (rest : Drawing) : Drawing :=
  match draw p with
  | inl e => ([], inl e)
  | inr _ => (p :: fst rest, snd rest)
  end.

(** [df[colonne]] inside the body. *)
Definition read (df : DataFrame) (colonne : string)
    (rest : Series -> Drawing) : Drawing :=
  match getitem df colonne with
  | inl e => ([], inl e)
  | inr s => rest s
  end.

(** [bins] is a number of bins, as the default 30 is. *)
Definition afficher_distribution (df : DataFrame) (colonne : string)
    (bins : nat) : Drawing :=
  if negb (has_column df colonne)
  then ([], raise (ValueError "Colonne non trouvée."))
  else
    read df colonne (fun s =>
    if negb (is_numeric_dtype s)
    then ([], raise (TypeError "Colonne non numérique."))
    else
      call (Subplots 1 2) (
      read df colonne (fun s0 =>
      call (HistPlot s0 bins true 0) (
      call (SetTitle 0 ("Histogramme - " ++ colonne)) (
      read df colonne (fun s1 =>
      call (BoxPlot s1 1) (
      call (SetTitle 1 ("Boxplot - " ++ colonne)) (
      call TightLayout (
      call Show ([], ret tt)))))))))).
End Plotting.

(** *** [analyser_correlation] *)

Record CorrRow : Type := mkCorrRow {
  Variable_1 : string;
  Variable_2 : string;
  Correlation : Q
}.

Section Correlation.
Context `{CorrLib}.

(** The body of the two loops at [(i, j)]: the row appended, if any.
    [NaN >= seuil] is false. *)
Definition paire (corr : Matrix) (seuil : Q) (i j : nat) : list CorrRow :=
  match iloc corr i j with
  | Some v =>
      if Qle_bool seuil v
      then [mkCorrRow (nth i (labels corr) "") (nth j (labels corr) "")
                      (Num.round v 3)]
      else []
  | None => []
  end.

(** The list [paires] after the two loops:
    [for i in range(n): for j in range(i + 1, n): ...]. *)
Definition paires (corr : Matrix) (seuil : Q) : list CorrRow :=
  let n := length (labels corr) in
  flat_map
    (fun i => flat_map (paire corr seuil i) (seq (i + 1) (n - (i + 1))))
    (seq 0 n).

(** The drawing commands, and [None] or the report. *)
Definition analyser_correlation (df : DataFrame) (seuil : Q)
    (heatmap : bool) : list Plot * option (list CorrRow) :=
  let df_num := select_dtypes_number df in
  if empty df_num then ([], None)
  else
    let corr := matrix_abs (corr df_num) in
    let plots :=
      if heatmap
      then [Heatmap corr; Title "Matrice de corrélation"; Show]
      else [] in
    match paires corr seuil with
    | [] => (plots, None)
    | _ :: _ =>
        (plots, Some (sort_values_desc Correlation (paires corr seuil)))
    end.
End Correlation.

End Utils.

(** ** Sample tables *)

Module Samples.
Import Pandas Preprocessing.

Definition ints (l : list Z) : list (option Q) :=
  map (fun z => Some (inject_Z z)) l.

(** Four customers.  [Spend] is twice [Age], [Churn] equals [Returned],
    [Country] has one value, and half of [Note] is missing. *)
Definition customers : DataFrame :=
  mkDF 4
    [("CustomerID", NumCol (ints [1; 2; 3; 4]%Z));
     ("Age", NumCol (ints [20; 30; 40; 50]%Z));
     ("Spend", NumCol (ints [40; 60; 80; 100]%Z));
     ("Returned", NumCol (ints [0; 1; 0; 1]%Z));
     ("Churn", NumCol (ints [0; 1; 0; 1]%Z));
     ("Country", ObjCol [Some "FR"; Some "FR"; Some "FR"; Some "FR"]);
     ("Note", ObjCol [None; None; Some "a"; Some "b"])].

(** The same customers once pruned. *)
Definition customers_pruned : DataFrame :=
  mkDF 4
    [("Age", NumCol (ints [20; 30; 40; 50]%Z));
     ("Returned", NumCol (ints [0; 1; 0; 1]%Z));
     ("Churn", NumCol (ints [0; 1; 0; 1]%Z))].

(** A table with columns and no row, as [read_csv] gives for a file that
    has only its header line. *)
Definition header_only : DataFrame :=
  mkDF 0 [("Age", ObjCol []); ("Churn", ObjCol [])].

(** A table of text columns only. *)
Definition text_only : DataFrame :=
  mkDF 3
    [("City", ObjCol [Some "Tunis"; Some "Sfax"; Some "Tunis"]);
     ("Segment", ObjCol [Some "a"; Some "b"; Some "c"])].

(** The sequence of the specification's outlier example. *)
Definition one_to_nine_and_100 : DataFrame :=
  mkDF 10 [("v", NumCol (ints [1; 2; 3; 4; 5; 6; 7; 8; 9; 100]%Z))].

(** Two columns that move in opposite directions. *)
Definition opposite : DataFrame :=
  mkDF 3
    [("up", NumCol (ints [1; 2; 3]%Z));
     ("down", NumCol (ints [3; 2; 1]%Z))].

(** Twenty-three customers: [Flag] is "a" twenty times, "b" once and
    missing twice. *)
Definition flagged : DataFrame :=
  mkDF 23
    [("Flag", ObjCol (repeat (Some "a") 20 ++ [Some "b"; None; None]));
     ("Rank", NumCol (map (fun n => Some (inject_Z (Z.of_nat n)))
                        (seq 1 23)))].

(** A hundred rows: one value fills 96 rows of [p96] and 95 rows of
    [p95]. *)
Definition shares : DataFrame :=
  mkDF 100
    [("p96", ObjCol (repeat (Some "a") 96 ++ repeat (Some "b") 4));
     ("p95", ObjCol (repeat (Some "a") 95 ++ repeat (Some "b") 5))].

(** A store with nothing in it. *)
Definition empty_store : Store := mkStore ∅ [].

End Samples.

(** ** Vocabulary of the properties *)

Module Measures.
Import Pandas.

(** Number of values of a column that are not missing. *)
Definition count_present (s : Series) : nat :=
  match s with
  | NumCol l => length (dropna l)
  | ObjCol l => length (dropna l)
  end.

(** Number of occurrences of each distinct value of a column. *)
Definition occurrences (s : Series) : list nat :=
  match s with
  | NumCol l => map snd (value_counts_of Qeq_bool l)
  | ObjCol l => map snd (value_counts_of String.eqb l)
  end.

(** Number of occurrences of the most frequent value, 0 when the column
    has no value. *)
Definition top_count (s : Series) : nat :=
  fold_right Nat.max 0%nat (occurrences s).

(** No value of the table is missing. *)
Definition no_missing (df : DataFrame) : bool :=
  forallb (fun c => (isna_sum (snd c) =? 0)%nat) (cols df).


(** Number of rows a boolean mask selects. *)
Definition selected (mask : list bool) : nat :=
  length (List.filter (fun b : bool => b) mask).

(** The numeric columns of a table, in the order of the table, and the
    name of the [i]-th of them. *)
Definition numeric_cols (df : DataFrame) : list (string * Series) :=
  cols (select_dtypes_number df).

Definition numeric_name (df : DataFrame) (i : nat) : string :=
  nth i (map fst (numeric_cols df)) "".

Section PairCorrelation.
Context `{CorrLib}.

(** The coefficient of the [i]-th and the [j]-th numeric column, and its
    absolute value; NaN when there is no such column. *)
Definition pair_pearson (df : DataFrame) (i j : nat) : option Q :=
  match nth_error (numeric_cols df) i, nth_error (numeric_cols df) j with
  | Some a, Some b =>
      pearson (numeric_values (snd a)) (numeric_values (snd b))
  | _, _ => None
  end.

Definition pair_corr (df : DataFrame) (i j : nat) : option Q :=
  Num.abs (pair_pearson df i j).

(** The pair [(i, j)] of numeric columns is to be reported with the
    value [v]. *)
Definition reportable (df : DataFrame) (seuil : Q) (i j : nat) (v : Q)
  : Prop :=
  (i < j < length (numeric_cols df))%nat /\
  pair_corr df i j = Some v /\ (seuil <= v)%Q.
End PairCorrelation.

(** [c] is [x] rounded to [d] decimals.  The source rounds binary floats:
    the value it gives is the float next to a multiple [k / 10^d], and when
    [x] is within rounding error of the middle of two multiples either of
    them can come out.  So [c] is a multiple of [10^-d] up to [10^-9], and
    that multiple is within [0.501] units of [x]. *)
Definition rounded_to (d : nat) (x c : Q) : Prop :=
  exists k : Z,
    (Qabs (c - inject_Z k / inject_Z (10 ^ Z.of_nat d))
     <= 1 # 1000000000)%Q /\
    (Qabs (inject_Z k / inject_Z (10 ^ Z.of_nat d) - x)
     <= (501 # 1000) / inject_Z (10 ^ Z.of_nat d))%Q.

(** The drawing calls of [afficher_distribution] on the column [s], in the
    order of the body. *)
Definition distribution_plots (colonne : string) (s : Series) (bins : nat)
  : list Utils.Plot :=
  [Utils.Subplots 1 2;
   Utils.HistPlot s bins true 0;
   Utils.SetTitle 0 ("Histogramme - " ++ colonne);
   Utils.BoxPlot s 1;
   Utils.SetTitle 1 ("Boxplot - " ++ colonne);
   Utils.TightLayout;
   Utils.Show].

Section Runs.
Context `{Utils.PlotLib}.

(** The calls [plots] made one after the other. *)
Fixpoint run (plots : list Utils.Plot) : Utils.Drawing :=
  match plots with
  | [] => ([], ret tt)
  | p :: rest => Utils.call p (run rest)
  end.

(** [done] and [out] are what the calls [plots] leave behind: the library
    has carried out [done]; either these are all the calls and nothing is
    raised, or the library has raised [out] on the call that comes next,
    and the calls after it are not made. *)
Definition run_of (plots done : list Utils.Plot) (out : Exc unit) : Prop :=
  Forall (fun p => Utils.draw p = inr tt) done /\
  ((out = inr tt /\ done = plots) \/
   (exists e p after,
       out = inl e /\ plots = (done ++ p :: after)%list /\
       Utils.draw p = inl e)).
End Runs.

End Measures.

(** ** [resume_dataset] of [src/utils.py] *)

Module Summary.
Import Pandas.

(** The value of one row in one column. *)
Inductive Cell : Type :=
| NumCell (x : option Q)
| ObjCell (x : option string).

(** Equality of two values as [duplicated] sees it: two missing values are
    equal. *)
Definition cell_eqb (a b : Cell) : bool :=
  match a, b with
  | NumCell (Some x), NumCell (Some y) => Qeq_bool x y
  | NumCell None, NumCell None => true
  | ObjCell (Some x), ObjCell (Some y) => String.eqb x y
  | ObjCell None, ObjCell None => true
  | _, _ => false
  end.

Definition series_cells (s : Series) : list Cell :=
  match s with
  | NumCol l => map NumCell l
  | ObjCol l => map ObjCell l
  end.

(** The [i]-th row of a table, and all its rows. *)
Definition row (df : DataFrame) (i : nat) : list Cell :=
  map (fun c => nth i (series_cells (snd c)) (ObjCell None)) (cols df).

Definition table_rows (df : DataFrame) : list (list Cell) :=
  map (row df) (seq 0 (nrows df)).

Fixpoint row_eqb (a b : list Cell) : bool :=
  match a, b with
  | [], [] => true
  | x :: a', y :: b' => cell_eqb x y && row_eqb a' b'
  | _, _ => false
  end.

(** [df.duplicated()]: a row is marked when an earlier row equals it. *)
Fixpoint duplicated_from (seen rest : list (list Cell)) : list bool :=
  match rest with
  | [] => []
  | r :: rest' =>
      existsb (row_eqb r) seen :: duplicated_from (seen ++ [r]) rest'
  end.

Definition duplicated (df : DataFrame) : list bool :=
  duplicated_from [] (table_rows df).

(** The two logical types of a column. *)
Inductive Dtype : Type := Number | Object.

Definition dtype_eqb (a b : Dtype) : bool :=
  match a, b with
  | Number, Number | Object, Object => true
  | _, _ => false
  end.

Definition dtype (s : Series) : Dtype :=
  if is_numeric_dtype s then Number else Object.

(** [df.dtypes.value_counts()]: the types that occur with the number of
    columns of each, by decreasing count. *)
Definition dtypes_value_counts (df : DataFrame) : list (Dtype * nat) :=
  Utils.sort_values_desc (fun dc => inject_Z (Z.of_nat (snd dc)))
    (value_counts_of dtype_eqb (map (fun c => Some (dtype (snd c))) (cols df))).

(** [df.isna().sum().sum()] *)
Definition total_nan (df : DataFrame) : nat :=
  list_sum (map (fun c => isna_sum (snd c)) (cols df)).

(** What [resume_dataset] prints, line by line; a number is printed as it
    is computed, its formatting left to [print]. *)
Inductive Line : Type :=
| Rule
| Heading (text : string)
| Lignes (n : nat)
| Colonnes (n : nat)
| Doublons (n : nat)
| Memoire (megabytes : Q)
| Types (counts : list (Dtype * nat))
| TotalNaN (n : nat).

(** [df.memory_usage(deep=True).sum()], in bytes, is the library's own
    measure of a table. *)
Class MemoryLib : Type := {
  memory_usage_sum : DataFrame -> nat
}.

Definition resume_dataset `{MemoryLib} (df : DataFrame) : list Line :=
  let memoire := (inject_Z (Z.of_nat (memory_usage_sum df))
                  / inject_Z (1024 ^ 2))%Q in
  [Rule;
   Heading "RÉSUMÉ DU DATASET";
   Rule;
   Lignes (fst (shape df));
   Colonnes (snd (shape df));
   Doublons (length (List.filter (fun b : bool => b) (duplicated df)));
   Memoire memoire;
   Heading "Types de colonnes :";
   Types (dtypes_value_counts df);
   TotalNaN (total_nan df);
   Rule].

(** A measure for the samples: eight bytes a value. *)
Definition eight_bytes : MemoryLib :=
  {| memory_usage_sum := fun df => (8 * nrows df * length (cols df))%nat |}.

End Summary.

(** ** Vocabulary of the properties of the whole script *)

Module Survival.
Import Pandas Preprocessing.

(** The name is on the fixed list of step 4. *)
Definition denylisted (name : string) : bool :=
  existsb (String.eqb name) denylist.

(** The column passes the tests of the first four steps: at least two
    distinct values, no value above the share 0.95, a name that is not on
    the fixed list, and no more than 0.4 of missing values. *)
Definition passes (c : string * Series) : bool :=
  negb (nunique (snd c) <=? 1)%nat &&
  negb (Num.gt (max_share (snd c)) (95 # 100)) &&
  negb (denylisted (fst c)) &&
  negb (Num.gt (isna_mean (snd c)) threshold).

(** All the non-missing values of a numeric column are equal to [c]. *)
Definition constant_at (c : Q) (v : list (option Q)) : Prop :=
  Forall (fun x => (x == c)%Q) (dropna v).

(** The value at the fractional position [h] of a list, interpolated
    between the elements at the positions below and above [h]. *)
Definition interpolate (xs : list Q) (h : Q) : Q :=
  let i := Z.to_nat (Qfloor h) in
  let a := nth i xs 0%Q in
  let b := nth (Nat.min (i + 1) (length xs - 1)) xs 0%Q in
  (a + (h - inject_Z (Qfloor h)) * (b - a))%Q.

(** The row of the missing-value summary for a column of a table of [n]
    rows: its name, its number of missing values, and that number as a
    percentage of [n], rounded to 2 decimals. *)
Definition nan_row (n : nat) (c : string * Series) : Utils.NanRow :=
  Utils.mkNanRow (fst c) (isna_sum (snd c))
    (Num.round ((Z.of_nat (isna_sum (snd c)) # Pos.of_nat n) * 100) 2).

End Survival.

(** ** More sample tables *)

Module MoreSamples.
Import Pandas.

(** Three rows: [Empty] has no value, [Flat] has one value twice, [Mixed]
    has two values. *)
Definition sparse : DataFrame :=
  mkDF 3
    [("Empty", NumCol [None; None; None]);
     ("Flat", NumCol [Some 5%Q; None; Some 5%Q]);
     ("Mixed", NumCol [Some 1%Q; Some 2%Q; None])].


End MoreSamples.

(** * Properties *)

Import Pandas Preprocessing Utils Samples Measures.
Import Summary Survival MoreSamples.

(** Well-formedness of a table written out in full. *)
Ltac solve_wf :=
  split;
  [ repeat constructor; simpl; intuition discriminate
  | repeat constructor ].

(** ** Comparisons *)

Lemma Qltb_lt (a b : Q) : Num.Qltb a b = true <-> (a < b)%Q.
Proof.
  unfold Num.Qltb. rewrite negb_true_iff. split.
  - intros Hb. apply Qnot_le_lt. intros Hle.
    apply Qle_bool_iff in Hle. congruence.
  - intros Hlt. destruct (Qle_bool b a) eqn:E; [|reflexivity].
    apply Qle_bool_iff in E. exfalso. exact (Qlt_not_le _ _ Hlt E).
Qed.

Lemma Qltb_ge (a b : Q) : Num.Qltb a b = false <-> (b <= a)%Q.
Proof.
  unfold Num.Qltb. rewrite negb_false_iff. apply Qle_bool_iff.
Qed.

(** The maximum of a list exceeds [t] exactly when one element does. *)
Lemma gt_max_existsb (l : list Q) (t : Q) :
  Num.gt (Num.max l) t = existsb (Num.Qltb t) l.
Proof.
  induction l as [|x l IH]; [reflexivity|].
  simpl. destruct (Num.max l) as [m|] eqn:Em; simpl in *; rewrite <- IH.
  - destruct (Num.Qltb x m) eqn:Exm.
    + destruct (Num.Qltb t x) eqn:Etx; [|reflexivity].
      apply Qltb_lt in Exm, Etx. simpl. apply Qltb_lt.
      eapply Qlt_trans; eassumption.
    + destruct (Num.Qltb t m) eqn:Etm; [|now rewrite orb_false_r].
      rewrite orb_true_r. apply Qltb_lt. apply Qltb_lt in Etm.
      apply Qltb_ge in Exm. eapply Qlt_le_trans; eassumption.
  - now rewrite orb_false_r.
Qed.

(** ** Lists *)

Lemma filter_sublist {A} (f : A -> bool) (l : list A) :
  sublist (List.filter f l) l.
Proof.
  induction l as [|x l IH]; simpl.
  - constructor.
  - destruct (f x); now constructor.
Qed.

Lemma sublist_In {A} (l1 l2 : list A) (x : A) :
  sublist l1 l2 -> In x l1 -> In x l2.
Proof.
  induction 1; simpl; intros Hin; [easy| |]; intuition.
Qed.

Lemma sublist_map {A B} (f : A -> B) (l1 l2 : list A) :
  sublist l1 l2 -> sublist (map f l1) (map f l2).
Proof. induction 1; simpl; now constructor. Qed.

Lemma sublist_ListNoDup {A} (l1 l2 : list A) :
  sublist l1 l2 -> List.NoDup l2 -> List.NoDup l1.
Proof.
  induction 1 as [|x l1 l2 Hs IH|x l1 l2 Hs IH]; intros Hnd.
  - constructor.
  - inversion Hnd as [|? ? Hx Hl]; subst. constructor; [|now apply IH].
    intros Hin. apply Hx. eapply sublist_In; eassumption.
  - inversion Hnd; subst. now apply IH.
Qed.

Lemma sublist_Forall' {A} (P : A -> Prop) (l1 l2 : list A) :
  sublist l1 l2 -> Forall P l2 -> Forall P l1.
Proof.
  induction 1; intros HF; [constructor| |]; inversion HF; subst; auto.
Qed.

Lemma filter_all {A} (f : A -> bool) (l : list A) :
  (forall x, In x l -> f x = true) -> List.filter f l = l.
Proof.
  induction l as [|x l IH]; simpl; intros Hall; [reflexivity|].
  rewrite (Hall x) by now left. f_equal. apply IH. intros y Hy.
  apply Hall. now right.
Qed.

Lemma filter_none {A} (f : A -> bool) (l : list A) :
  (forall x, In x l -> f x = false) -> List.filter f l = [].
Proof.
  induction l as [|x l IH]; simpl; intros Hall; [reflexivity|].
  rewrite (Hall x) by now left. apply IH. intros y Hy.
  apply Hall. now right.
Qed.

Lemma filter_nil_inv {A} (f : A -> bool) (l : list A) :
  List.filter f l = [] -> forall x, In x l -> f x = false.
Proof.
  induction l as [|x l IH]; simpl; intros Hf y Hy; [easy|].
  destruct (f x) eqn:E; [discriminate|].
  destruct Hy as [->|Hy]; auto.
Qed.

(** ** [drop] *)

Lemma has_column_In (df : DataFrame) (name : string) :
  has_column df name = true <-> In name (columns df).
Proof.
  unfold has_column. rewrite existsb_exists. split.
  - intros (x & Hx & Heq). apply String.eqb_eq in Heq. now subst.
  - intros Hin. exists name. split; [assumption|apply String.eqb_refl].
Qed.

Lemma drop_present (labels : list string) (df : DataFrame) :
  incl labels (columns df) -> drop labels df = inr (dropped labels df).
Proof.
  intros Hincl. unfold drop.
  rewrite filter_none; [reflexivity|].
  intros l Hl. apply negb_false_iff, has_column_In. now apply Hincl.
Qed.

Lemma dropped_sublist (labels : list string) (df : DataFrame) :
  sublist (cols (dropped labels df)) (cols df).
Proof. apply filter_sublist. Qed.

Lemma dropped_nil (df : DataFrame) : dropped [] df = df.
Proof.
  unfold dropped. destruct df as [n cs]. simpl. f_equal.
  now apply filter_all.
Qed.

Lemma dropped_not_listed (labels : list string) (df : DataFrame)
    (c : string * Series) :
  In c (cols df) -> ~ In (fst c) labels -> In c (cols (dropped labels df)).
Proof.
  intros Hin Hnot. simpl. apply filter_In. split; [assumption|].
  apply negb_true_iff. destruct (existsb _ labels) eqn:E; [|reflexivity].
  apply existsb_exists in E as (l & Hl & Heq).
  apply String.eqb_eq in Heq. subst. contradiction.
Qed.

Lemma dropped_listed (labels : list string) (df : DataFrame)
    (c : string * Series) :
  In c (cols (dropped labels df)) -> ~ In (fst c) labels.
Proof.
  simpl. intros Hin%filter_In Hl. destruct Hin as [_ Hf].
  apply negb_true_iff in Hf.
  assert (existsb (String.eqb (fst c)) labels = true) as E; [|congruence].
  apply existsb_exists. exists (fst c). split; [assumption|].
  apply String.eqb_refl.
Qed.

Lemma wf_sublist (df df' : DataFrame) :
  wf df -> nrows df' = nrows df -> sublist (cols df') (cols df) -> wf df'.
Proof.
  intros [Hnd Hlen] Hn Hs. split.
  - eapply sublist_ListNoDup; [|exact Hnd]. now apply sublist_map.
  - rewrite Hn. eapply sublist_Forall'; eassumption.
Qed.

Lemma wf_dropped (labels : list string) (df : DataFrame) :
  wf df -> wf (dropped labels df).
Proof.
  intros Hwf. eapply wf_sublist; [exact Hwf|reflexivity|].
  apply dropped_sublist.
Qed.

(** ** The removal sets name columns of the table *)

Lemma filtered_names_incl (f : string * Series -> bool) (df : DataFrame) :
  incl (map fst (List.filter f (cols df))) (columns df).
Proof.
  intros x Hx. apply in_map_iff in Hx as (c & <- & Hc).
  apply filter_In in Hc as [Hc _]. unfold columns. now apply in_map.
Qed.

Lemma constant_cols_incl (df : DataFrame) :
  incl (constant_cols df) (columns df).
Proof. apply filtered_names_incl. Qed.

Lemma quasi_const_cols_incl (df : DataFrame) :
  incl (quasi_const_cols df) (columns df).
Proof. apply filtered_names_incl. Qed.

Lemma cols_trop_nan_incl (df : DataFrame) :
  incl (cols_trop_nan df) (columns df).
Proof. apply filtered_names_incl. Qed.

Lemma cols_to_remove_incl (df : DataFrame) :
  incl (cols_to_remove df) (columns df).
Proof.
  intros x Hx. apply filter_In in Hx as [_ Hx]. now apply has_column_In.
Qed.

(** A column that stays after a filter fails the test of the filter. *)
Lemma dropped_filtered (f : string * Series -> bool) (df : DataFrame) :
  Forall (fun c => f c = false)
    (cols (dropped (map fst (List.filter f (cols df))) df)).
Proof.
  apply List.Forall_forall. intros c Hc.
  pose proof (dropped_listed _ _ _ Hc) as Hnot.
  destruct (f c) eqn:E; [|reflexivity]. exfalso. apply Hnot.
  apply in_map. apply filter_In. split; [|assumption].
  eapply sublist_In; [apply dropped_sublist|exact Hc].
Qed.

(** ** [list.remove] and the correlation step *)

Lemma list_remove_spec (x : string) (l : list string) :
  In x l -> List.NoDup l ->
  exists r, list_remove x l = inr r /\ sublist r l /\ ~ In x r.
Proof.
  induction l as [|y l IH]; simpl; intros Hin Hnd; [easy|].
  inversion Hnd as [|? ? Hy Hl]; subst.
  destruct (String.eqb x y) eqn:E.
  - apply String.eqb_eq in E. subst. exists l.
    split; [reflexivity|]. split; [now constructor|assumption].
  - apply String.eqb_neq in E. destruct Hin as [Heq|Hin]; [congruence|].
    destruct (IH Hin Hl) as (r & Hr & Hs & Hnot). rewrite Hr. simpl.
    exists (y :: r). split; [reflexivity|]. split; [now constructor|].
    simpl. intros [Heq|Hin']; [congruence|contradiction].
Qed.

Lemma list_remove_returns (x : string) (l : list string) :
  In x l -> exists r, list_remove x l = inr r /\ sublist r l.
Proof.
  induction l as [|y l IH]; simpl; intros Hin; [easy|].
  destruct (String.eqb x y) eqn:E.
  - exists l. split; [reflexivity|now constructor].
  - apply String.eqb_neq in E. destruct Hin as [Heq|Hin]; [congruence|].
    destruct (IH Hin) as (r & Hr & Hs). rewrite Hr. simpl.
    exists (y :: r). split; [reflexivity|now constructor].
Qed.

Lemma map_snd_combine_seq {A} (l : list A) (k : nat) :
  map snd (combine (seq k (length l)) l) = l.
Proof.
  revert k. induction l as [|x l IH]; intros k; simpl; [reflexivity|].
  now rewrite IH.
Qed.

Lemma select_dtypes_sublist (df : DataFrame) :
  sublist (cols (select_dtypes_number df)) (cols df).
Proof. apply filter_sublist. Qed.

Section CorrelationStep.
Context `{CorrLib}.

Lemma upper_triangle_labels (df : DataFrame) :
  labels (upper_triangle df) = columns (select_dtypes_number df).
Proof. reflexivity. Qed.

Lemma high_before_protection_sublist (df : DataFrame) :
  sublist (high_before_protection df) (columns (select_dtypes_number df)).
Proof.
  unfold high_before_protection. rewrite upper_triangle_labels.
  set (ls := columns (select_dtypes_number df)).
  set (picked := List.filter _ _).
  rewrite <- (map_snd_combine_seq ls 0).
  apply sublist_map. apply filter_sublist.
Qed.

Lemma high_corr_cols_returns (df : DataFrame) :
  exists high,
    high_corr_cols df = inr high /\
    sublist high (columns (select_dtypes_number df)).
Proof.
  pose proof (high_before_protection_sublist df) as Hs.
  unfold high_corr_cols. fold (high_before_protection df).
  destruct (existsb (String.eqb "Churn") (high_before_protection df)) eqn:E.
  - apply existsb_exists in E as (x & Hx & Heq).
    apply String.eqb_eq in Heq. subst x.
    destruct (list_remove_returns _ _ Hx) as (r & Hr & Hsr).
    exists r. split; [assumption|]. etransitivity; eassumption.
  - exists (high_before_protection df). split; [reflexivity|assumption].
Qed.

Lemma high_corr_cols_protects (df : DataFrame) (high : list string) :
  List.NoDup (columns df) -> high_corr_cols df = inr high ->
  ~ In "Churn" high.
Proof.
  intros Hnd. pose proof (high_before_protection_sublist df) as Hs.
  assert (List.NoDup (high_before_protection df)) as Hnd'.
  { eapply sublist_ListNoDup; [exact Hs|].
    eapply sublist_ListNoDup; [|exact Hnd].
    apply sublist_map, select_dtypes_sublist. }
  unfold high_corr_cols. fold (high_before_protection df).
  destruct (existsb (String.eqb "Churn") (high_before_protection df)) eqn:E.
  - apply existsb_exists in E as (x & Hx & Heq).
    apply String.eqb_eq in Heq. subst x.
    destruct (list_remove_spec _ _ Hx Hnd') as (r & Hr & _ & Hnot).
    rewrite Hr. intros [= <-]. assumption.
  - intros [= <-] Hin.
    assert (existsb (String.eqb "Churn") (high_before_protection df) = true)
      as E'; [|congruence].
    apply existsb_exists. exists "Churn". split; [assumption|reflexivity].
Qed.

Lemma high_corr_cols_incl (df : DataFrame) (high : list string) :
  high_corr_cols df = inr high -> incl high (columns df).
Proof.
  intros Hh. destruct (high_corr_cols_returns df) as (h & Hh' & Hs).
  rewrite Hh in Hh'. injection Hh' as <-. intros x Hx.
  eapply sublist_In; [|eapply sublist_In; [exact Hs|exact Hx]].
  apply sublist_map, select_dtypes_sublist.
Qed.
End CorrelationStep.

(** ** The run of the script *)

Section Pipeline.
Context `{CorrLib}.

(** No step of [prune] raises. *)
Lemma prune_returns (raw : DataFrame) :
  exists high,
    high_corr_cols (after_missing raw) = inr high /\
    prune raw = inr (dropped high (after_missing raw)).
Proof.
  destruct (high_corr_cols_returns (after_missing raw)) as (high & Hh & _).
  exists high. split; [assumption|].
  unfold prune.
  rewrite (drop_present _ _ (constant_cols_incl raw)). simpl.
  fold (after_constant raw).
  rewrite (drop_present _ _ (quasi_const_cols_incl (after_constant raw))).
  simpl. fold (after_quasi raw).
  rewrite (drop_present _ _ (cols_to_remove_incl (after_quasi raw))).
  simpl. fold (after_denylist raw).
  rewrite (drop_present _ _ (cols_trop_nan_incl (after_denylist raw))).
  simpl. fold (after_missing raw). rewrite Hh. simpl.
  apply drop_present. eapply high_corr_cols_incl. exact Hh.
Qed.

Lemma after_missing_sublist (raw : DataFrame) :
  sublist (cols (after_missing raw)) (cols raw).
Proof.
  unfold after_missing, after_denylist, after_quasi, after_constant.
  repeat (etransitivity; [apply dropped_sublist|]). reflexivity.
Qed.

Lemma prune_sublist (raw out : DataFrame) :
  prune raw = inr out ->
  nrows out = nrows raw /\ sublist (cols out) (cols raw).
Proof.
  destruct (prune_returns raw) as (high & _ & Hp). rewrite Hp.
  intros [= <-]. split; [reflexivity|].
  etransitivity; [apply dropped_sublist|apply after_missing_sublist].
Qed.

(** One step of the script on a store where [r] holds [cur]. *)
Lemma prune_step_run (r : ref) (removal : DataFrame -> Exc (list string))
    (st : Store) (cur : DataFrame) (ls : list string) :
  heap st !! r = Some cur ->
  removal cur = inr ls ->
  incl ls (columns cur) ->
  prune_step r removal st
  = Done tt (mkStore (<[r := dropped ls cur]> (heap st)) (output st)).
Proof.
  intros Hr Hrem Hincl.
  unfold prune_step, drop_inplace, mbind, deref, lift, assign.
  rewrite Hr, Hrem. simpl. rewrite Hr.
  now rewrite (drop_present _ _ Hincl).
Qed.

Lemma ref_df_fresh (st : Store) : heap st !! ref_df st = None.
Proof. unfold ref_df. apply not_elem_of_dom. apply is_fresh. Qed.

Lemma ref_df_clean_fresh (st : Store) (raw : DataFrame) :
  <[ref_df st := raw]> (heap st) !! ref_df_clean st raw = None.
Proof. unfold ref_df_clean. apply not_elem_of_dom. apply is_fresh. Qed.

Lemma ref_df_clean_ne (st : Store) (raw : DataFrame) :
  ref_df st <> ref_df_clean st raw.
Proof.
  intros Heq. pose proof (ref_df_clean_fresh st raw) as Hf.
  rewrite <- Heq in Hf. rewrite lookup_insert_eq in Hf. discriminate.
Qed.

(** The script runs to its end: [df] still holds the table that was read,
    [df_clean] holds the pruned table, and the objects that were in the
    store before are as they were. *)
Lemma main_run (raw : DataFrame) (st : Store) :
  exists out st',
    prune raw = inr out /\
    main raw st = Done (ref_df st, ref_df_clean st raw) st' /\
    heap st' = <[ref_df_clean st raw := out]>
                 (<[ref_df st := raw]> (heap st)) /\
    output st' =
      (output st ++
        [PrintShape "Shape initial :" (shape raw);
         PrintShape "Shape final :" (shape out);
         MakeDirs "../projet_ml_retail/data/processed";
         ToCsv "C:/projet/projet_ml_retail/data/processed/data_cleaned_v2.csv" out;
         PrintLine "✔ Dataset nettoyé sauvegardé avec succès"])%list.
Proof.
  destruct (prune_returns raw) as (high & Hh & Hp).
  eexists. eexists. split; [exact Hp|].
  set (d := ref_df st). set (c := ref_df_clean st raw).
  unfold main.
  unfold mbind at 1. unfold new at 1. fold d.
  unfold mbind at 1. unfold copy, mbind at 1, deref at 1. simpl.
  rewrite lookup_insert_eq. unfold new at 1. simpl. fold d.
  change (fresh (dom (<[d:=raw]> (heap st)))) with c.
  unfold mbind at 1. unfold deref at 1. simpl. rewrite lookup_insert_eq.
  unfold mbind at 1. unfold emit at 1. simpl.
  unfold mbind at 1.
  erewrite prune_step_run;
    [|simpl; apply lookup_insert_eq|reflexivity|apply constant_cols_incl].
  simpl. rewrite insert_insert_eq. fold (after_constant raw).
  unfold mbind at 1.
  erewrite prune_step_run;
    [|simpl; apply lookup_insert_eq|reflexivity|apply quasi_const_cols_incl].
  simpl. rewrite insert_insert_eq. fold (after_quasi raw).
  unfold mbind at 1.
  erewrite prune_step_run;
    [|simpl; apply lookup_insert_eq|reflexivity|apply cols_to_remove_incl].
  simpl. rewrite insert_insert_eq. fold (after_denylist raw).
  unfold mbind at 1.
  erewrite prune_step_run;
    [|simpl; apply lookup_insert_eq|reflexivity|apply cols_trop_nan_incl].
  simpl. rewrite insert_insert_eq. fold (after_missing raw).
  unfold mbind at 1.
  erewrite prune_step_run;
    [|simpl; apply lookup_insert_eq|exact Hh
     |eapply high_corr_cols_incl; exact Hh].
  simpl. rewrite insert_insert_eq.
  unfold mbind, deref, emit, mret. simpl. rewrite lookup_insert_eq.
  split; [reflexivity|]. simpl. split; [reflexivity|].
  repeat rewrite <- app_assoc. reflexivity.
Qed.
End Pipeline.

(** ** Looking a column up by name *)

Lemma getitem_In (df : DataFrame) (name : string) (s : Series) :
  getitem df name = inr s -> In (name, s) (cols df).
Proof.
  unfold getitem. destruct (List.find _ (cols df)) as [c|] eqn:E; [|easy].
  intros [= <-]. apply find_some in E as [Hin Heq].
  apply String.eqb_eq in Heq. subst. now destruct c.
Qed.

Lemma In_getitem (df : DataFrame) (name : string) (s : Series) :
  List.NoDup (columns df) -> In (name, s) (cols df) ->
  getitem df name = inr s.
Proof.
  unfold getitem, columns. induction (cols df) as [|[n0 s0] l IH]; simpl;
    intros Hnd Hin; [easy|].
  inversion Hnd as [|? ? Hn0 Hl]; subst.
  destruct (String.eqb name n0) eqn:E.
  - apply String.eqb_eq in E. subst. destruct Hin as [[= ->]|Hin];
      [reflexivity|].
    exfalso. apply Hn0. apply in_map_iff. now exists (n0, s).
  - apply String.eqb_neq in E. destruct Hin as [[= -> ->]|Hin]; [easy|].
    now apply IH.
Qed.

Lemma getitem_has_column (df : DataFrame) (name : string) :
  has_column df name = true -> exists s, getitem df name = inr s.
Proof.
  intros Hc. apply has_column_In in Hc. unfold getitem, columns in *.
  induction (cols df) as [|[n0 s0] l IH]; simpl in *; [easy|].
  destruct (String.eqb name n0) eqn:E; [now exists s0|].
  apply String.eqb_neq in E. destruct Hc as [Heq|Hc]; [congruence|].
  now apply IH.
Qed.

(** ** The pruned table column by column *)

Section Pruned.
Context `{CorrLib}.

Lemma prune_sublist_missing (raw out : DataFrame) :
  prune raw = inr out -> sublist (cols out) (cols (after_missing raw)).
Proof.
  destruct (prune_returns raw) as (high & _ & Hp). rewrite Hp.
  intros [= <-]. apply dropped_sublist.
Qed.

Lemma prune_sublist_quasi (raw out : DataFrame) :
  prune raw = inr out -> sublist (cols out) (cols (after_quasi raw)).
Proof.
  intros Hp. etransitivity; [exact (prune_sublist_missing _ _ Hp)|].
  etransitivity; [apply (dropped_sublist _ (after_denylist raw))|].
  apply (dropped_sublist _ (after_quasi raw)).
Qed.

Lemma prune_sublist_constant (raw out : DataFrame) :
  prune raw = inr out -> sublist (cols out) (cols (after_constant raw)).
Proof.
  intros Hp. etransitivity; [exact (prune_sublist_quasi _ _ Hp)|].
  apply (dropped_sublist _ (after_constant raw)).
Qed.

(** What the three statistical filters leave on every surviving column. *)
Lemma prune_survivors (raw out : DataFrame) :
  prune raw = inr out ->
  Forall (fun c =>
            (nunique (snd c) <=? 1)%nat = false /\
            Num.gt (max_share (snd c)) (95 # 100) = false /\
            Num.gt (isna_mean (snd c)) threshold = false)
    (cols out).
Proof.
  intros Hp. apply List.Forall_forall. intros c Hc. repeat split.
  - pose proof (dropped_filtered
                  (fun c => (nunique (snd c) <=? 1)%nat) raw) as HF.
    rewrite List.Forall_forall in HF. apply HF.
    eapply sublist_In; [exact (prune_sublist_constant _ _ Hp)|exact Hc].
  - pose proof (dropped_filtered
                  (fun c => Num.gt (max_share (snd c)) (95 # 100))
                  (after_constant raw)) as HF.
    rewrite List.Forall_forall in HF. apply HF.
    eapply sublist_In; [exact (prune_sublist_quasi _ _ Hp)|exact Hc].
  - pose proof (dropped_filtered
                  (fun c => Num.gt (isna_mean (snd c)) threshold)
                  (after_denylist raw)) as HF.
    rewrite List.Forall_forall in HF. apply HF.
    eapply sublist_In; [exact (prune_sublist_missing _ _ Hp)|exact Hc].
Qed.
End Pruned.

(** ** Statistics of a column with at least two distinct values *)

Lemma max_None (l : list Q) : Num.max l = None -> l = [].
Proof.
  destruct l as [|x l]; [reflexivity|]. simpl.
  now destruct (Num.max l).
Qed.

Lemma max_share_None (s : Series) : max_share s = None -> nunique s = 0%nat.
Proof.
  destruct s as [l|l]; simpl; intros Hm; apply max_None in Hm;
    unfold value_shares_of, value_counts_of in Hm;
    repeat apply map_eq_nil in Hm; now rewrite Hm.
Qed.

Lemma dropna_length {A} (l : list (option A)) :
  (length (dropna l) <= length l)%nat.
Proof.
  induction l as [|[x|] l IH]; simpl; lia.
Qed.

Lemma unique_length {A} (eqb : A -> A -> bool) (l : list A) :
  (length (unique eqb l) <= length l)%nat.
Proof.
  induction l as [|x l IH]; simpl; [lia|].
  pose proof (filter_length_le (fun y => negb (eqb x y)) (unique eqb l)).
  lia.
Qed.

Lemma nunique_le_len (s : Series) : (nunique s <= series_len s)%nat.
Proof.
  destruct s as [l|l]; simpl.
  - pose proof (unique_length Qeq_bool (dropna l)).
    pose proof (dropna_length l). lia.
  - pose proof (unique_length String.eqb (dropna l)).
    pose proof (dropna_length l). lia.
Qed.

(** * The claims about the pruning script *)

(** C3.  On a table with unique column names the list [high_corr_cols] is
    computed without raising and never holds "Churn", whatever the
    correlation coefficients are; dropping the list raises nothing and keeps
    the column "Churn", with its values, when the table has it. *)
Theorem churn_never_in_high_corr_cols `{CorrLib} (df : DataFrame) :
  wf df ->
  exists high,
    high_corr_cols df = inr high /\
    ~ In "Churn" high /\
    drop high df = inr (dropped high df) /\
    forall s, In ("Churn", s) (cols df) ->
              In ("Churn", s) (cols (dropped high df)) /\
              getitem (dropped high df) "Churn" = inr s.
Proof.
  intros Hwf. destruct (high_corr_cols_returns df) as (high & Hh & _).
  exists high. split; [assumption|].
  pose proof (high_corr_cols_protects df high (proj1 Hwf) Hh) as Hnot.
  split; [assumption|]. split.
  - apply drop_present. eapply high_corr_cols_incl. exact Hh.
  - intros s Hs.
    assert (In ("Churn", s) (cols (dropped high df))) as Hin
      by now apply dropped_not_listed.
    split; [assumption|].
    apply In_getitem; [|assumption]. apply (wf_dropped high df Hwf).
Qed.

(** C4.  The script runs to its end on every table; the table it leaves in
    [df_clean] has the row count of the input, its columns are columns of the
    input, in the input's order, each under its own name and with its own
    values. *)
Theorem pruned_table_is_sub_table `{CorrLib} (raw : DataFrame) (st : Store) :
  wf raw ->
  exists d c st' out,
    main raw st = Done (d, c) st' /\
    heap st' !! c = Some out /\
    prune raw = inr out /\
    nrows out = nrows raw /\
    sublist (cols out) (cols raw) /\
    incl (columns out) (columns raw) /\
    (forall name s, getitem out name = inr s -> getitem raw name = inr s) /\
    wf out.
Proof.
  intros Hwf. destruct (main_run raw st) as (out & st' & Hp & Hm & Hh & _).
  exists (ref_df st), (ref_df_clean st raw), st', out.
  destruct (prune_sublist raw out Hp) as [Hn Hs].
  split; [assumption|]. split; [rewrite Hh; apply lookup_insert_eq|].
  split; [assumption|]. split; [assumption|]. split; [assumption|].
  split; [|split].
  - intros x Hx. eapply sublist_In; [|exact Hx]. now apply sublist_map.
  - intros name s Hg. apply In_getitem; [exact (proj1 Hwf)|].
    eapply sublist_In; [exact Hs|]. now apply getitem_In.
  - eapply wf_sublist; eassumption.
Qed.

(** A step of the script changes no object but the one it is run on. *)
Lemma prune_step_frame (c : ref) (removal : DataFrame -> Exc (list string))
    (st st' : Store) (u : unit) (r : ref) :
  prune_step c removal st = Done u st' -> r <> c ->
  heap st' !! r = heap st !! r.
Proof.
  unfold prune_step, drop_inplace, mbind, deref, lift, assign.
  destruct (heap st !! c) as [cur|] eqn:Hc; [|discriminate].
  destruct (removal cur) as [e|ls]; [discriminate|]. rewrite Hc.
  destruct (drop ls cur) as [e|df']; [discriminate|].
  intros [= _ <-] Hne. simpl. apply lookup_insert_ne. congruence.
Qed.

(** C5.  When the script has run, the object [df] refers to is the table
    that was read: [df_clean] is another object, the steps change that
    object only, and the objects the store held before are as they were. *)
Theorem original_table_unchanged `{CorrLib} (raw : DataFrame) (st : Store) :
  wf raw ->
  exists d c st',
    main raw st = Done (d, c) st' /\
    d <> c /\
    heap st' !! d = Some raw /\
    (forall r df, heap st !! r = Some df -> heap st' !! r = Some df) /\
    (forall removal s1 s2 u,
        prune_step c removal s1 = Done u s2 ->
        heap s2 !! d = heap s1 !! d).
Proof.
  intros _. destruct (main_run raw st) as (out & st' & _ & Hm & Hh & _).
  exists (ref_df st), (ref_df_clean st raw), st'.
  pose proof (ref_df_clean_ne st raw) as Hne.
  split; [assumption|]. split; [assumption|]. rewrite Hh. split; [|split].
  - rewrite lookup_insert_ne by congruence. apply lookup_insert_eq.
  - intros r df Hr.
    assert (r <> ref_df st) as Hr1.
    { intros ->. rewrite ref_df_fresh in Hr. discriminate. }
    assert (r <> ref_df_clean st raw) as Hr2.
    { intros ->. pose proof (ref_df_clean_fresh st raw) as Hf.
      rewrite lookup_insert_ne in Hf by congruence. congruence. }
    rewrite !lookup_insert_ne by congruence. assumption.
  - intros removal s1 s2 u Hstep.
    eapply prune_step_frame; [exact Hstep|assumption].
Qed.

(** C6.  On a table with no column or no row the script runs to its end and
    leaves a table with no column; and on a table with no numeric column the
    correlation step computes the empty list, and dropping it raises nothing
    and changes nothing. *)
Theorem empty_tables_are_pruned_without_error `{CorrLib} :
  (forall raw st,
      wf raw -> empty raw = true ->
      exists d c st' out,
        main raw st = Done (d, c) st' /\
        heap st' !! c = Some out /\
        cols out = [] /\ nrows out = nrows raw) /\
  (forall df,
      cols (select_dtypes_number df) = [] ->
      high_corr_cols df = inr [] /\ drop [] df = inr df).
Proof.
  split.
  - intros raw st Hwf Hempty.
    destruct (main_run raw st) as (out & st' & Hp & Hm & Hh & _).
    exists (ref_df st), (ref_df_clean st raw), st', out.
    split; [assumption|]. split; [rewrite Hh; apply lookup_insert_eq|].
    destruct (prune_sublist raw out Hp) as [Hn Hs]. split; [|assumption].
    unfold empty in Hempty. apply orb_true_iff in Hempty as [Hrows|Hcols].
    + apply Nat.eqb_eq in Hrows.
      pose proof (prune_sublist_constant raw out Hp) as Hsc.
      pose proof (dropped_filtered
                    (fun c => (nunique (snd c) <=? 1)%nat) raw) as HF.
      fold (constant_cols raw) in HF. fold (after_constant raw) in HF.
      destruct (cols out) as [|c0 rest] eqn:Ec; [reflexivity|]. exfalso.
      assert (In c0 (cols (after_constant raw))) as Hin.
      { eapply sublist_In; [exact Hsc|now left]. }
      rewrite List.Forall_forall in HF. pose proof (HF c0 Hin) as Hc0.
      apply Nat.leb_gt in Hc0.
      assert (In c0 (cols raw)) as Hin'.
      { eapply sublist_In; [apply dropped_sublist|exact Hin]. }
      destruct Hwf as [_ Hlen]. rewrite List.Forall_forall in Hlen.
      pose proof (Hlen c0 Hin') as Hl. pose proof (nunique_le_len (snd c0)).
      lia.
    + apply Nat.eqb_eq in Hcols. apply length_zero_iff_nil in Hcols.
      rewrite Hcols in Hs. now apply sublist_nil_r in Hs.
  - intros df Hnum. split.
    + pose proof (high_before_protection_sublist df) as Hs.
      unfold columns in Hs. rewrite Hnum in Hs. simpl in Hs.
      apply sublist_nil_r in Hs. unfold high_corr_cols. now rewrite Hs.
    + rewrite drop_present by (intros x []). now rewrite dropped_nil.
Qed.

(** C8.  On the table the script leaves in [df_clean], the lists of constant
    columns, of quasi-constant columns and of columns with too many missing
    values are empty, so that dropping them again changes nothing: every
    column has at least two distinct values, its most frequent value has a
    share of at most 0.95, and at most 0.4 of its values are missing. *)
Theorem pruned_table_passes_filters_again `{CorrLib}
    (raw : DataFrame) (st : Store) :
  wf raw ->
  exists d c st' out,
    main raw st = Done (d, c) st' /\
    heap st' !! c = Some out /\
    constant_cols out = [] /\
    quasi_const_cols out = [] /\
    cols_trop_nan out = [] /\
    drop (constant_cols out) out = inr out /\
    drop (quasi_const_cols out) out = inr out /\
    drop (cols_trop_nan out) out = inr out /\
    forall name s,
      In (name, s) (cols out) ->
      (2 <= nunique s)%nat /\
      (exists m, max_share s = Some m /\ (m <= 95 # 100)%Q) /\
      (exists f, isna_mean s = Some f /\ (f <= 4 # 10)%Q).
Proof.
  intros _. destruct (main_run raw st) as (out & st' & Hp & Hm & Hh & _).
  exists (ref_df st), (ref_df_clean st raw), st', out.
  split; [assumption|]. split; [rewrite Hh; apply lookup_insert_eq|].
  pose proof (prune_survivors raw out Hp) as HF.
  rewrite List.Forall_forall in HF.
  assert (constant_cols out = []) as E1.
  { unfold constant_cols. rewrite filter_none; [reflexivity|].
    intros c Hc. apply (HF c Hc). }
  assert (quasi_const_cols out = []) as E2.
  { unfold quasi_const_cols. rewrite filter_none; [reflexivity|].
    intros c Hc. apply (HF c Hc). }
  assert (cols_trop_nan out = []) as E3.
  { unfold cols_trop_nan. rewrite filter_none; [reflexivity|].
    intros c Hc. apply (HF c Hc). }
  assert (drop [] out = inr out) as Ed.
  { rewrite drop_present by (intros x []). now rewrite dropped_nil. }
  rewrite E1, E2, E3. repeat (split; [first [reflexivity|exact Ed]|]).
  intros name s Hin. destruct (HF _ Hin) as (H1 & H2 & H3). simpl in *.
  apply Nat.leb_gt in H1. split; [lia|]. split.
  - destruct (max_share s) as [m|] eqn:Em.
    + exists m. split; [reflexivity|]. simpl in H2. now apply Qltb_ge.
    + apply max_share_None in Em. lia.
  - unfold isna_mean in *. pose proof (nunique_le_len s) as Hle.
    destruct (series_len s) as [|n] eqn:El; [lia|].
    eexists. split; [reflexivity|]. simpl in H3. now apply Qltb_ge.
Qed.

(** ** The quasi-constant test in terms of counts *)

Lemma fold_max_upper (l : list nat) (c : nat) :
  In c l -> (c <= fold_right Nat.max 0 l)%nat.
Proof.
  induction l as [|x l IH]; simpl; [easy|].
  intros [->|Hin]; [lia|]. specialize (IH Hin). lia.
Qed.

Lemma fold_max_reached (l : list nat) :
  l <> [] -> In (fold_right Nat.max 0%nat l) l.
Proof.
  induction l as [|x l IH]; [easy|]. intros _. simpl.
  destruct l as [|y l'].
  - left. simpl. lia.
  - assert (y :: l' <> []) as Hne by easy. specialize (IH Hne).
    destruct (Nat.max_spec x (fold_right Nat.max 0%nat (y :: l')))
      as [[_ ->]|[_ ->]]; [now right|now left].
Qed.

Lemma share_gt_iff (c total : nat) :
  (0 < total)%nat ->
  Num.Qltb (95 # 100) (Z.of_nat c # Pos.of_nat total) = true <->
  (95 * total < 100 * c)%nat.
Proof.
  intros Hpos. rewrite Qltb_lt. unfold Qlt. simpl.
  assert (Zpos (Pos.of_nat total) = Z.of_nat total) as ->.
  { destruct total as [|n]; [lia|].
    rewrite <- (Nat2Pos.id (S n)) at 2 by lia. now rewrite positive_nat_Z. }
  lia.
Qed.

Lemma occurrences_present (s : Series) :
  occurrences s <> [] -> (0 < count_present s)%nat.
Proof.
  destruct s as [l|l]; simpl; unfold value_counts_of;
    (destruct (dropna l); simpl; [intros Hne; now contradiction Hne|lia]).
Qed.

Lemma max_share_occurrences (s : Series) :
  max_share s
  = Num.max (map (fun c => Z.of_nat c # Pos.of_nat (count_present s))
               (occurrences s)).
Proof.
  destruct s as [l|l]; simpl; unfold value_shares_of;
    now rewrite !map_map.
Qed.

(** The test of step 3 on one column. *)
Lemma quasi_constant_test (s : Series) :
  Num.gt (max_share s) (95 # 100) = true <->
  (95 * count_present s < 100 * top_count s)%nat.
Proof.
  rewrite max_share_occurrences, gt_max_existsb, existsb_exists.
  unfold top_count. split.
  - intros (x & Hx & Hlt). apply in_map_iff in Hx as (c & <- & Hc).
    assert (occurrences s <> []) as Hne by (intros E; now rewrite E in Hc).
    apply share_gt_iff in Hlt; [|now apply occurrences_present].
    pose proof (fold_max_upper _ _ Hc). lia.
  - intros Hlt.
    assert (occurrences s <> []) as Hne.
    { intros E. rewrite E in Hlt. simpl in Hlt. lia. }
    eexists. split.
    + apply in_map. apply fold_max_reached. exact Hne.
    + apply share_gt_iff; [now apply occurrences_present|assumption].
Qed.

Lemma present_plus_missing (s : Series) :
  (count_present s + isna_sum s = series_len s)%nat.
Proof.
  destruct s as [l|l]; simpl; unfold count_na;
    induction l as [|[x|] l IH]; simpl in *; lia.
Qed.

(** * The claims about the filters and the helpers *)

(** C2, as the code has it.  On a table with unique column names, step 3
    removes a column exactly when the number of occurrences of its most
    frequent value exceeds 0.95 of the number of its values that are not
    missing; the comparison is strict.  On a column without missing value
    that number is the number of rows. *)
Theorem quasi_constant_filter_share (df : DataFrame) :
  wf df ->
  drop (quasi_const_cols df) df = inr (dropped (quasi_const_cols df) df) /\
  forall name s,
    In (name, s) (cols df) ->
    (In name (quasi_const_cols df) <->
     (95 * count_present s < 100 * top_count s)%nat) /\
    (In (name, s) (cols (dropped (quasi_const_cols df) df)) <->
     ~ (95 * count_present s < 100 * top_count s)%nat) /\
    (isna_sum s = 0%nat ->
     (In name (quasi_const_cols df) <->
      (95 * series_len s < 100 * top_count s)%nat)).
Proof.
  intros [Hnd _]. split; [apply drop_present, quasi_const_cols_incl|].
  intros name s Hin.
  assert (In name (quasi_const_cols df) <->
          (95 * count_present s < 100 * top_count s)%nat) as Hiff.
  { rewrite <- quasi_constant_test. unfold quasi_const_cols. split.
    - intros Hq. apply in_map_iff in Hq as ([n' s'] & Heq & Hf).
      simpl in Heq. subst n'. apply filter_In in Hf as [Hin' Ht].
      pose proof (In_getitem df name s Hnd Hin) as G1.
      pose proof (In_getitem df name s' Hnd Hin') as G2.
      rewrite G1 in G2. injection G2 as <-. exact Ht.
    - intros Ht. apply in_map_iff. exists (name, s). split; [reflexivity|].
      apply filter_In. split; assumption. }
  split; [exact Hiff|]. split.
  - rewrite <- Hiff. split.
    + intros Hd. exact (dropped_listed _ _ _ Hd).
    + intros Hnot. now apply dropped_not_listed.
  - intros Hna. pose proof (present_plus_missing s) as Hpm.
    rewrite Hna, Nat.add_0_r in Hpm. now rewrite <- Hpm.
Qed.

(** C2, as the claim has it, fails: the share is not taken over all rows.
    In [flagged] the most frequent value of [Flag] fills 20 of the 23 rows,
    less than 0.95 of them, and yet step 3 removes the column, because it
    fills 20 of the 21 values that are not missing. *)
Lemma flag_removed_with_low_share_of_rows :
  exists s,
    getitem flagged "Flag" = inr s /\
    series_len s = 23%nat /\ top_count s = 20%nat /\
    ~ (95 * series_len s < 100 * top_count s)%nat /\
    In "Flag" (quasi_const_cols flagged) /\
    constant_cols flagged = [] /\
    @prune exact_corr flagged = inr (dropped ["Flag"] flagged).
Proof.
  eexists. split; [reflexivity|]. split; [reflexivity|].
  split; [reflexivity|]. split; [vm_compute; lia|].
  split; [vm_compute; now left|]. split; reflexivity.
Qed.

(** The two shares the specification names, on a hundred rows without
    missing value: 96 rows are too many, 95 are not. *)
Example quasi_constant_96_and_95 :
  quasi_const_cols shares = ["p96"] /\
  drop (quasi_const_cols shares) shares
  = inr (mkDF 100
           [("p95", ObjCol (repeat (Some "a") 95 ++ repeat (Some "b") 5))]).
Proof. split; reflexivity. Qed.

(** C1, as the claim has it, fails: on [text_only], which has rows and
    columns and no missing value, [analyser_nan] returns a report with no
    row, not [None]. *)
Lemma analyser_nan_returns_empty_report :
  empty text_only = false /\
  no_missing text_only = true /\
  analyser_nan text_only = Some [] /\
  analyser_nan text_only <> None.
Proof. repeat split; try reflexivity. discriminate. Qed.

(** C1, as the code has it.  [analyser_nan] returns [None] exactly on an
    empty table (no row or no column); on any other table it returns a
    report, and the report has no row when the table has no missing
    value. *)
Theorem analyser_nan_signal (df : DataFrame) :
  (empty df = true -> analyser_nan df = None) /\
  (empty df = false ->
   exists report,
     analyser_nan df = Some report /\
     (no_missing df = true -> report = [])).
Proof.
  unfold analyser_nan. split; intros He; rewrite He; [reflexivity|].
  eexists. split; [reflexivity|]. intros Hno.
  rewrite filter_none; [reflexivity|].
  intros r Hr. apply in_map_iff in Hr as ([[n c] [n' q]] & <- & Hin).
  simpl. apply in_combine_l in Hin.
  apply in_map_iff in Hin as (col & [= <- <-] & Hcol).
  unfold no_missing in Hno. rewrite forallb_forall in Hno.
  specialize (Hno col Hcol). apply Nat.eqb_eq in Hno. rewrite Hno.
  reflexivity.
Qed.

(** The three cases of the column checks of [detecter_outliers]. *)
Lemma outliers_checks_absent (df : DataFrame) (colonne : string) :
  has_column df colonne = false ->
  detecter_outliers df colonne = inl (ValueError "Colonne inexistante.").
Proof.
  intros Hc. unfold detecter_outliers. rewrite Hc. reflexivity.
Qed.

Lemma outliers_checks_not_numeric (df : DataFrame) (colonne : string)
    (s : Series) :
  has_column df colonne = true -> getitem df colonne = inr s ->
  is_numeric_dtype s = false ->
  detecter_outliers df colonne
  = inl (TypeError "La colonne doit être numérique.").
Proof.
  intros Hc Hs Hn. unfold detecter_outliers.
  rewrite Hc, Hs. simpl. rewrite Hn. reflexivity.
Qed.

Lemma outliers_checks_numeric (df : DataFrame) (colonne : string)
    (s : Series) :
  has_column df colonne = true -> getitem df colonne = inr s ->
  is_numeric_dtype s = true ->
  exists r, detecter_outliers df colonne = inr r.
Proof.
  intros Hc Hs Hn. unfold detecter_outliers.
  rewrite Hc, Hs. simpl. rewrite Hn. simpl. eexists; reflexivity.
Qed.

(** ** The drawing calls of [afficher_distribution] *)

Section PlottingFacts.
Context `{PlotLib}.

Lemma distribution_checks_absent (df : DataFrame) (colonne : string)
    (bins : nat) :
  has_column df colonne = false ->
  afficher_distribution df colonne bins
  = ([], inl (ValueError "Colonne non trouvée.")).
Proof.
  intros Hc. unfold afficher_distribution. rewrite Hc. reflexivity.
Qed.

Lemma distribution_checks_not_numeric (df : DataFrame) (colonne : string)
    (bins : nat) (s : Series) :
  has_column df colonne = true -> getitem df colonne = inr s ->
  is_numeric_dtype s = false ->
  afficher_distribution df colonne bins
  = ([], inl (TypeError "Colonne non numérique.")).
Proof.
  intros Hc Hs Hn. unfold afficher_distribution, read.
  rewrite Hc, Hs. simpl. rewrite Hn. reflexivity.
Qed.

(** Past the two checks the body is its seven calls of the library. *)
Lemma distribution_checks_numeric (df : DataFrame) (colonne : string)
    (bins : nat) (s : Series) :
  has_column df colonne = true -> getitem df colonne = inr s ->
  is_numeric_dtype s = true ->
  afficher_distribution df colonne bins
  = run (distribution_plots colonne s bins).
Proof.
  intros Hc Hs Hn. unfold afficher_distribution, read.
  rewrite Hc, Hs. simpl. rewrite Hn. reflexivity.
Qed.

Lemma call_raises (p : Plot) (rest : Drawing) (e : Exception) :
  draw p = inl e -> call p rest = ([], inl e).
Proof. intros Hp. unfold call. now rewrite Hp. Qed.

Lemma call_returns (p : Plot) (rest : Drawing) :
  draw p = inr tt -> call p rest = (p :: fst rest, snd rest).
Proof. intros Hp. unfold call. now rewrite Hp. Qed.

Lemma run_run_of (plots : list Plot) :
  run_of plots (fst (run plots)) (snd (run plots)).
Proof.
  induction plots as [|p plots [IHd IHo]]; simpl.
  - split; [constructor|]. left. split; reflexivity.
  - destruct (draw p) as [e|[]] eqn:Hp.
    + rewrite (call_raises p _ e Hp). simpl. split; [constructor|].
      right. exists e, p, plots. repeat split; assumption.
    + rewrite (call_returns p _ Hp). simpl. split.
      * constructor; assumption.
      * destruct IHo as [[Ho Hd]|(e & q & after & Ho & Hd & Hq)].
        -- left. split; [assumption|]. now rewrite Hd.
        -- right. exists e, q, after. split; [assumption|].
           split; [|assumption]. simpl. now rewrite <- Hd.
Qed.

(** When the library raises on none of the calls, all of them are made. *)
Lemma run_all (plots : list Plot) :
  (forall p, In p plots -> draw p = inr tt) -> run plots = (plots, inr tt).
Proof.
  induction plots as [|p plots IH]; simpl; intros Hall; [reflexivity|].
  rewrite call_returns by (apply Hall; now left).
  rewrite IH by (intros q Hq; apply Hall; now right). reflexivity.
Qed.
End PlottingFacts.

(** C7 as the claim has it fails for [afficher_distribution]: on the
    numeric column [Age] of the four customers, a histogram with [bins = 0]
    ends in the [ValueError] of the plotting library, after the figure has
    been created. *)
Lemma histogram_without_bins_raises :
  In "Age" (columns customers) /\
  (exists s, getitem customers "Age" = inr s /\ is_numeric_dtype s = true) /\
  @afficher_distribution positive_bins customers "Age" 0
  = ([Subplots 1 2],
     inl (ValueError "`bins` must be positive, when an integer")).
Proof.
  split; [simpl; tauto|]. split; [|reflexivity].
  eexists. split; reflexivity.
Qed.

(** C7.  [detecter_outliers] raises [ValueError] exactly when the name is
    not a column of the table, [TypeError] exactly when the name is a column
    that is not numeric, and nothing but these two exceptions with their
    messages.  [afficher_distribution] makes the same two checks before it
    draws anything: it raises its [ValueError] on a name that is not a
    column and its [TypeError] on a column that is not numeric, with nothing
    drawn.  On a numeric column it makes its seven calls of the plotting
    library in order; what it raises then is what the library raises, on the
    first call the library refuses, the exception unchanged.  So with a
    library that refuses none of these calls, the two exceptions of the
    checks, each in its own case, are all that [afficher_distribution]
    raises. *)
Theorem column_errors `{PlotLib} (df : DataFrame) (colonne : string)
    (bins : nat) :
  ((exists m, detecter_outliers df colonne = inl (ValueError m)) <->
   ~ In colonne (columns df)) /\
  ((exists m, detecter_outliers df colonne = inl (TypeError m)) <->
   In colonne (columns df) /\
   exists s, getitem df colonne = inr s /\ is_numeric_dtype s = false) /\
  (forall e,
      detecter_outliers df colonne = inl e ->
      e = ValueError "Colonne inexistante." \/
      e = TypeError "La colonne doit être numérique.") /\
  (~ In colonne (columns df) ->
   afficher_distribution df colonne bins
   = ([], inl (ValueError "Colonne non trouvée."))) /\
  (forall s,
      getitem df colonne = inr s -> is_numeric_dtype s = false ->
      afficher_distribution df colonne bins
      = ([], inl (TypeError "Colonne non numérique."))) /\
  (forall s,
      getitem df colonne = inr s -> is_numeric_dtype s = true ->
      run_of (distribution_plots colonne s bins)
        (fst (afficher_distribution df colonne bins))
        (snd (afficher_distribution df colonne bins))) /\
  ((forall s p,
       getitem df colonne = inr s ->
       In p (distribution_plots colonne s bins) -> draw p = inr tt) ->
   ((exists m,
        snd (afficher_distribution df colonne bins) = inl (ValueError m)) <->
    ~ In colonne (columns df)) /\
   ((exists m,
        snd (afficher_distribution df colonne bins) = inl (TypeError m)) <->
    In colonne (columns df) /\
    exists s, getitem df colonne = inr s /\ is_numeric_dtype s = false) /\
   (forall e,
       snd (afficher_distribution df colonne bins) = inl e ->
       e = ValueError "Colonne non trouvée." \/
       e = TypeError "Colonne non numérique.")).
Proof.
  destruct (has_column df colonne) eqn:Hc.
  - pose proof (proj1 (has_column_In df colonne) Hc) as Hin.
    destruct (getitem_has_column df colonne Hc) as (s & Hs).
    destruct (is_numeric_dtype s) eqn:Hn.
    + destruct (outliers_checks_numeric df colonne s Hc Hs Hn) as [r Hd].
      pose proof (distribution_checks_numeric df colonne bins s Hc Hs Hn)
        as Ha.
      rewrite Hd, Ha, Hs.
      split; [split; [intros [m Hm]; discriminate|tauto]|].
      split; [split; [intros [m Hm]; discriminate|]|].
      { intros (_ & s' & [= <-] & Hs'). congruence. }
      split; [intros e; discriminate|].
      split; [tauto|].
      split; [intros s' [= <-] Hs'; congruence|].
      split; [intros s' [= <-] _; apply run_run_of|].
      intros Hall. rewrite run_all by (intros p; apply Hall; reflexivity).
      simpl.
      split; [split; [intros [m Hm]; discriminate|tauto]|].
      split; [split; [intros [m Hm]; discriminate|]|intros e; discriminate].
      intros (_ & s' & [= <-] & Hs'). congruence.
    + pose proof (outliers_checks_not_numeric df colonne s Hc Hs Hn) as Hd.
      pose proof (distribution_checks_not_numeric df colonne bins s Hc Hs Hn)
        as Ha.
      rewrite Hd, Ha, Hs. simpl.
      split; [split; [intros [m Hm]; discriminate|tauto]|].
      split.
      { split; [intros _|intros _; eexists; reflexivity].
        split; [assumption|]. exists s. split; [reflexivity|assumption]. }
      split; [intros e [= <-]; now right|].
      split; [tauto|].
      split; [reflexivity|].
      split; [intros s' [= <-] Hs'; congruence|].
      intros _.
      split; [split; [intros [m Hm]; discriminate|tauto]|].
      split; [|intros e [= <-]; now right].
      split; [intros _|intros _; eexists; reflexivity].
      split; [assumption|]. exists s. split; [reflexivity|assumption].
  - assert (~ In colonne (columns df)) as Hnot.
    { intros Hin. apply has_column_In in Hin. congruence. }
    pose proof (outliers_checks_absent df colonne Hc) as Hd.
    pose proof (distribution_checks_absent df colonne bins Hc) as Ha.
    assert (forall s, getitem df colonne <> inr s) as Hget.
    { intros s Hs. apply Hnot. apply getitem_In in Hs.
      unfold columns. apply (in_map fst) in Hs. exact Hs. }
    rewrite Hd, Ha. simpl.
    split; [split; [tauto|intros _; eexists; reflexivity]|].
    split; [split; [intros [m Hm]; discriminate|tauto]|].
    split; [intros e [= <-]; now left|].
    split; [reflexivity|].
    split; [intros s Hs; destruct (Hget s Hs)|].
    split; [intros s Hs; destruct (Hget s Hs)|].
    intros _.
    split; [split; [tauto|intros _; eexists; reflexivity]|].
    split; [split; [intros [m Hm]; discriminate|tauto]|].
    intros e [= <-]; now left.
Qed.

(** ** The mask of [detecter_outliers] *)






(** The example of the specification: the quartiles of 1, ..., 9, 100 are
    3.25 and 7.75, the bounds are -3.5 and 14.5, and one row is out. *)
Example outliers_one_to_nine_and_100 :
  exists lo hi,
    detecter_outliers one_to_nine_and_100 "v" = inr (1%nat, Some lo, Some hi) /\
    (lo == - (35 # 10))%Q /\ (hi == 145 # 10)%Q /\
    quantile (ints [1; 2; 3; 4; 5; 6; 7; 8; 9; 100]%Z) (25 # 100)
    = Some (13 # 4) /\
    quantile (ints [1; 2; 3; 4; 5; 6; 7; 8; 9; 100]%Z) (75 # 100)
    = Some (31 # 4).
Proof.
  eexists. eexists. split; [vm_compute; reflexivity|].
  repeat split; reflexivity.
Qed.

(** ** [sort_values] *)

Section SortFacts.
Context {A : Type} (key : A -> Q).

Let desc (a b : A) : Prop := (key b <= key a)%Q.

Lemma insert_desc_perm (x : A) (l : list A) :
  Permutation (x :: l) (insert_desc key x l).
Proof.
  induction l as [|y l IH]; simpl; [reflexivity|].
  destruct (Qle_bool (key y) (key x)); [reflexivity|].
  etransitivity; [apply perm_swap|]. now constructor.
Qed.

Lemma sort_values_desc_perm (l : list A) :
  Permutation l (sort_values_desc key l).
Proof.
  induction l as [|x l IH]; simpl; [constructor|].
  etransitivity; [|apply insert_desc_perm]. now constructor.
Qed.

Lemma insert_desc_sorted (x : A) (l : list A) :
  StronglySorted desc l -> StronglySorted desc (insert_desc key x l).
Proof.
  induction l as [|y l IH]; simpl; intros Hs.
  - repeat constructor.
  - apply StronglySorted_inv in Hs as [Hl Hy].
    destruct (Qle_bool (key y) (key x)) eqn:E.
    + apply Qle_bool_iff in E. constructor.
      * now constructor.
      * constructor; [exact E|].
        rewrite List.Forall_forall in Hy |- *. intros z Hz.
        unfold desc in *. eapply Qle_trans; [exact (Hy z Hz)|exact E].
    + constructor; [now apply IH|].
      assert (key x <= key y)%Q as Hxy.
      { apply Qlt_le_weak, Qnot_le_lt. intros Hle.
        apply Qle_bool_iff in Hle. congruence. }
      rewrite List.Forall_forall in Hy |- *. intros z Hz.
      eapply Permutation_in in Hz;
        [|symmetry; apply insert_desc_perm].
      destruct Hz as [<-|Hz]; [exact Hxy|exact (Hy z Hz)].
Qed.

Lemma sort_values_desc_sorted (l : list A) :
  StronglySorted desc (sort_values_desc key l).
Proof.
  induction l as [|x l IH]; simpl; [constructor|].
  now apply insert_desc_sorted.
Qed.
End SortFacts.

(** ** Rounding *)



(** The nearest integer is at most one half away. *)
Lemma round_half_even_close (y : Q) :
  (Qabs (inject_Z (Num.round_half_even y) - y) <= 1 # 2)%Q.
Proof.
  unfold Num.round_half_even.
  pose proof (Qfloor_le y) as Hf. pose proof (Qlt_floor y) as Hf'.
  rewrite inject_Z_plus in Hf'. change (inject_Z 1) with 1%Q in Hf'.
  assert (forall b : bool,
             (y - inject_Z (Qfloor y) <= 1 # 2)%Q ->
             (1 # 2 <= y - inject_Z (Qfloor y))%Q ->
             (Qabs (inject_Z (if b then Qfloor y else (Qfloor y + 1)%Z) - y)
              <= 1 # 2)%Q) as Htie.
  { intros b H1 H2. apply Qabs_Qle_condition.
    destruct b; [|rewrite inject_Z_plus; change (inject_Z 1) with 1%Q];
      split; lra. }
  destruct (Num.Qltb (y - inject_Z (Qfloor y)) (1 # 2)) eqn:E1.
  - apply Qltb_lt in E1. apply Qabs_Qle_condition. split; lra.
  - apply Qltb_ge in E1.
    destruct (Num.Qltb (1 # 2) (y - inject_Z (Qfloor y))) eqn:E2.
    + apply Qltb_lt in E2. rewrite inject_Z_plus.
      change (inject_Z 1) with 1%Q. apply Qabs_Qle_condition. split; lra.
    + apply Qltb_ge in E2. now apply Htie.
Qed.

(** [round(x, d)] is the multiple of [10^-d] next to [x]. *)
Lemma round_rounded_to (x : Q) (d : nat) : rounded_to d x (Num.round x d).
Proof.
  unfold rounded_to, Num.round. set (s := (10 ^ Z.of_nat d)%Z).
  assert (0 < s)%Z as Hs by (apply Z.pow_pos_nonneg; lia).
  assert (0 < inject_Z s)%Q as Hsq.
  { change 0%Q with (inject_Z 0). now rewrite <- Zlt_Qlt. }
  assert (~ inject_Z s == 0)%Q as Hs0.
  { intros E. rewrite E in Hsq. exact (Qlt_irrefl 0 Hsq). }
  pose proof (round_half_even_close (x * inject_Z s)) as Hk.
  set (k := Num.round_half_even (x * inject_Z s)) in *.
  exists k. split.
  - rewrite Qred_correct.
    assert (inject_Z k / inject_Z s - inject_Z k / inject_Z s == 0)%Q as ->
      by ring.
    discriminate.
  - assert (inject_Z k / inject_Z s - x
            == (inject_Z k - x * inject_Z s) * / inject_Z s)%Q as ->
      by (field; exact Hs0).
    rewrite Qabs_Qmult.
    assert (0 <= / inject_Z s)%Q as Hinv
      by (apply Qlt_le_weak, Qinv_lt_0_compat, Hsq).
    rewrite (Qabs_pos (/ inject_Z s)) by exact Hinv.
    unfold Qdiv. apply Qmult_le_compat_r; [|exact Hinv].
    eapply Qle_trans; [exact Hk|]. discriminate.
Qed.

(** ** The correlation frame and the list of pairs *)

Lemma nth_map_error {A B} (f : A -> B) (l : list A) (i : nat) (d : B) :
  nth i (map f l) d
  = match nth_error l i with Some x => f x | None => d end.
Proof.
  revert i. induction l as [|x l IH]; intros [|i]; simpl; auto.
Qed.


Section CorrelationReport.
Context `{CorrLib}.

(** The frame [df_num.corr().abs()], entry by entry. *)
Lemma iloc_abs_corr (df : DataFrame) (i j : nat) :
  iloc (matrix_abs (corr (select_dtypes_number df))) i j = pair_corr df i j.
Proof.
  unfold iloc, matrix_abs, corr, pair_corr, pair_pearson, numeric_cols.
  cbn [rows labels]. set (cs := cols (select_dtypes_number df)).
  rewrite !nth_map_error, !nth_error_map.
  destruct (nth_error cs i) as [a|]; cbn [option_map].
  - rewrite !nth_map_error, !nth_error_map.
    destruct (nth_error cs j) as [b|]; reflexivity.
  - now destruct j.
Qed.

Lemma abs_corr_labels (df : DataFrame) :
  labels (matrix_abs (corr (select_dtypes_number df)))
  = map fst (numeric_cols df).
Proof. reflexivity. Qed.

(** What the body of the loops appends at [(i, j)]. *)
Lemma In_paire (df : DataFrame) (seuil : Q) (i j : nat) (row : CorrRow) :
  In row (paire (matrix_abs (corr (select_dtypes_number df))) seuil i j) <->
  exists v,
    pair_corr df i j = Some v /\ (seuil <= v)%Q /\
    row = mkCorrRow (numeric_name df i) (numeric_name df j) (Num.round v 3).
Proof.
  unfold paire. rewrite iloc_abs_corr, abs_corr_labels.
  fold (numeric_name df i). fold (numeric_name df j).
  destruct (pair_corr df i j) as [v|].
  - destruct (Qle_bool seuil v) eqn:E.
    + apply Qle_bool_iff in E. simpl. split.
      * intros [<-|[]]. now exists v.
      * intros (v' & [= <-] & _ & ->). now left.
    + split; [intros []|]. intros (v' & [= <-] & Hle & _).
      apply Qle_bool_iff in Hle. congruence.
  - split; [intros []|]. intros (v' & Hv & _). discriminate.
Qed.

Lemma In_paires (df : DataFrame) (seuil : Q) (row : CorrRow) :
  In row (paires (matrix_abs (corr (select_dtypes_number df))) seuil) <->
  exists i j v,
    reportable df seuil i j v /\
    row = mkCorrRow (numeric_name df i) (numeric_name df j) (Num.round v 3).
Proof.
  unfold paires, reportable. rewrite abs_corr_labels, length_map.
  set (n := length (numeric_cols df)). rewrite in_flat_map. split.
  - intros (i & Hi & Hrow). apply in_flat_map in Hrow as (j & Hj & Hrow).
    apply in_seq in Hi, Hj. apply In_paire in Hrow as (v & Hv & Hle & ->).
    exists i, j, v. repeat split; try assumption; lia.
  - intros (i & j & v & ((Hij & Hjn) & Hv & Hle) & ->).
    exists i. split; [apply in_seq; lia|]. apply in_flat_map.
    exists j. split; [apply in_seq; lia|]. apply In_paire. now exists v.
Qed.





End CorrelationReport.

(** * The theorems on the sample tables *)

(** C1 on a table without row and on a table without missing value. *)
Lemma analyser_nan_signal_witness :
  analyser_nan header_only = None /\
  exists report, analyser_nan text_only = Some report /\ report = [].
Proof.
  split.
  - apply (proj1 (analyser_nan_signal header_only)). reflexivity.
  - destruct (proj2 (analyser_nan_signal text_only) eq_refl)
      as (report & Hr & Hnil).
    exists report. split; [exact Hr|]. apply Hnil. reflexivity.
Defined.

(** C2 on the hundred rows of [shares]. *)
Lemma quasi_constant_filter_share_witness :
  wf shares /\
  In "p96" (quasi_const_cols shares) /\
  ~ In "p95" (quasi_const_cols shares).
Proof.
  assert (wf shares) as Hwf by solve_wf.
  destruct (quasi_constant_filter_share shares Hwf) as [_ Hcols].
  split; [exact Hwf|]. split.
  - apply (proj1 (Hcols "p96" _ (or_introl eq_refl))). vm_compute. lia.
  - intros Hin.
    apply (proj1 (Hcols "p95" _ (or_intror (or_introl eq_refl)))) in Hin.
    vm_compute in Hin. lia.
Defined.

(** C3 on a table where [Churn] equals [Returned]: the comprehension picks
    [Churn], the protection takes it out again. *)
Example churn_picked_then_protected :
  @high_before_protection exact_corr customers_pruned = ["Churn"] /\
  @pair_pearson exact_corr customers_pruned 1 2 = Some 1%Q /\
  @high_corr_cols exact_corr customers_pruned = inr [].
Proof. repeat split; reflexivity. Qed.

Lemma churn_never_in_high_corr_cols_witness :
  wf customers_pruned /\
  exists high,
    @high_corr_cols exact_corr customers_pruned = inr high /\
    ~ In "Churn" high /\
    getitem (dropped high customers_pruned) "Churn"
    = inr (NumCol (ints [0; 1; 0; 1]%Z)).
Proof.
  assert (wf customers_pruned) as Hwf by solve_wf.
  split; [exact Hwf|].
  destruct (@churn_never_in_high_corr_cols exact_corr customers_pruned Hwf)
    as (high & Hh & Hnot & _ & Hkeep).
  exists high. split; [exact Hh|]. split; [exact Hnot|].
  apply (Hkeep (NumCol (ints [0; 1; 0; 1]%Z))). simpl. tauto.
Defined.

(** C4 on the four customers. *)
Lemma pruned_table_is_sub_table_witness :
  wf customers /\
  exists d c st' out,
    @main exact_corr customers empty_store = Done (d, c) st' /\
    heap st' !! c = Some out /\
    nrows out = 4%nat /\
    sublist (cols out) (cols customers).
Proof.
  assert (wf customers) as Hwf by solve_wf.
  split; [exact Hwf|].
  destruct (@pruned_table_is_sub_table exact_corr customers empty_store Hwf)
    as (d & c & st' & out & Hm & Hc & _ & Hn & Hs & _).
  exists d, c, st', out. repeat split; assumption.
Defined.

Example customers_are_pruned :
  @prune exact_corr customers = inr customers_pruned.
Proof. reflexivity. Qed.

(** C5 on the four customers. *)
Lemma original_table_unchanged_witness :
  wf customers /\
  exists d c st',
    @main exact_corr customers empty_store = Done (d, c) st' /\
    d <> c /\
    heap st' !! d = Some customers.
Proof.
  assert (wf customers) as Hwf by solve_wf.
  split; [exact Hwf|].
  destruct (@original_table_unchanged exact_corr customers empty_store Hwf)
    as (d & c & st' & Hm & Hne & Hd & _).
  exists d, c, st'. repeat split; assumption.
Defined.

(** C6 on a table without row and on a table without numeric column. *)
Lemma empty_tables_are_pruned_without_error_witness :
  (wf header_only /\ empty header_only = true /\
   exists d c st' out,
     @main exact_corr header_only empty_store = Done (d, c) st' /\
     heap st' !! c = Some out /\ cols out = []) /\
  (cols (select_dtypes_number text_only) = [] /\
   @high_corr_cols exact_corr text_only = inr [] /\
   drop [] text_only = inr text_only).
Proof.
  destruct (@empty_tables_are_pruned_without_error exact_corr) as [H1 H2].
  assert (wf header_only) as Hwf by solve_wf.
  split.
  - split; [exact Hwf|]. split; [reflexivity|].
    destruct (H1 header_only empty_store Hwf eq_refl)
      as (d & c & st' & out & Hm & Hc & Hcols & _).
    exists d, c, st', out. repeat split; assumption.
  - split; [reflexivity|]. apply H2. reflexivity.
Defined.

(** C7 on a name that is no column, on a column of text and on a numeric
    column, with thirty bins. *)
Lemma column_errors_witness :
  detecter_outliers customers "Income"
  = inl (ValueError "Colonne inexistante.") /\
  (exists m, detecter_outliers customers "Country" = inl (TypeError m)) /\
  @afficher_distribution positive_bins customers "Income" 30
  = ([], inl (ValueError "Colonne non trouvée.")) /\
  @afficher_distribution positive_bins customers "Country" 30
  = ([], inl (TypeError "Colonne non numérique.")) /\
  @run_of positive_bins
    (distribution_plots "Age" (NumCol (ints [20; 30; 40; 50]%Z)) 30)
    (fst (@afficher_distribution positive_bins customers "Age" 30))
    (snd (@afficher_distribution positive_bins customers "Age" 30)).
Proof.
  pose proof (@column_errors positive_bins customers "Income" 30)
    as (Habsent & _ & _ & Ha & _).
  pose proof (@column_errors positive_bins customers "Country" 30)
    as (_ & Hd & _ & _ & Ht & _).
  pose proof (@column_errors positive_bins customers "Age" 30)
    as (_ & _ & _ & _ & _ & Hrun & _).
  assert (~ In "Income" (columns customers)) as Hno
    by (simpl; intuition discriminate).
  split; [|split; [|split; [|split]]].
  - apply Habsent in Hno as [m Hm].
    destruct (detecter_outliers customers "Income") as [e|r] eqn:E;
      [|discriminate].
    vm_compute in E. injection E as <-. reflexivity.
  - apply Hd. split; [simpl; tauto|]. eexists. split; reflexivity.
  - apply Ha, Hno.
  - apply (Ht (ObjCol [Some "FR"; Some "FR"; Some "FR"; Some "FR"]));
      reflexivity.
  - apply Hrun; reflexivity.
Defined.

(** C8 on the four customers. *)
Lemma pruned_table_passes_filters_again_witness :
  wf customers /\
  exists d c st' out,
    @main exact_corr customers empty_store = Done (d, c) st' /\
    heap st' !! c = Some out /\
    constant_cols out = [] /\
    quasi_const_cols out = [] /\
    cols_trop_nan out = [].
Proof.
  assert (wf customers) as Hwf by solve_wf.
  split; [exact Hwf|].
  destruct (@pruned_table_passes_filters_again exact_corr customers
              empty_store Hwf)
    as (d & c & st' & out & Hm & Hc & E1 & E2 & E3 & _).
  exists d, c, st', out. repeat split; assumption.
Defined.


Example opposite_columns_reported :
  @analyser_correlation exact_corr opposite (8 # 10) false
  = ([], Some [mkCorrRow "up" "down" 1]) /\
  @analyser_correlation exact_corr opposite 1 false
  = ([], Some [mkCorrRow "up" "down" 1]) /\
  @analyser_correlation exact_corr text_only (8 # 10) false = ([], None).
Proof. repeat split; reflexivity. Qed.


(** * Further properties of the script *)

(** ** The first four steps as one pass *)

Lemma same_name_same_column {A} (l : list (string * A)) (c c' : string * A) :
  List.NoDup (map fst l) -> In c l -> In c' l -> fst c = fst c' -> c = c'.
Proof.
  induction l as [|x l IH]; simpl; intros Hnd Hc Hc' Heq; [easy|].
  inversion Hnd as [|? ? Hx Hl]; subst.
  destruct Hc as [->|Hc], Hc' as [->|Hc']; [reflexivity| | |now apply IH].
  - exfalso. apply Hx. rewrite Heq. now apply in_map.
  - exfalso. apply Hx. rewrite <- Heq. now apply in_map.
Qed.

Lemma filter_twice {A} (f g : A -> bool) (l : list A) :
  List.filter g (List.filter f l) = List.filter (fun x => f x && g x) l.
Proof.
  induction l as [|x l IH]; simpl; [reflexivity|].
  destruct (f x); simpl; [|exact IH]. destruct (g x); now rewrite IH.
Qed.

(** Dropping the names a test selects keeps the columns that fail it. *)
Lemma dropped_selected (f : string * Series -> bool) (df : DataFrame) :
  List.NoDup (columns df) ->
  cols (dropped (map fst (List.filter f (cols df))) df)
  = List.filter (fun c => negb (f c)) (cols df).
Proof.
  intros Hnd. simpl. apply filter_ext_in. intros c Hc. f_equal.
  destruct (f c) eqn:E.
  - apply existsb_exists. exists (fst c). split; [|apply String.eqb_refl].
    apply in_map. apply filter_In. now split.
  - destruct (existsb _ _) eqn:Ex; [|reflexivity].
    apply existsb_exists in Ex as (n & Hn & Heq).
    apply String.eqb_eq in Heq. subst n.
    apply in_map_iff in Hn as (c' & Hname & Hc').
    apply filter_In in Hc' as [Hc' Hf].
    assert (c' = c) as -> by (eapply same_name_same_column; eauto).
    congruence.
Qed.

Lemma dropped_denylist (df : DataFrame) :
  cols (dropped (cols_to_remove df) df)
  = List.filter (fun c => negb (denylisted (fst c))) (cols df).
Proof.
  simpl. apply filter_ext_in. intros c Hc. f_equal.
  unfold cols_to_remove, denylisted.
  destruct (existsb (String.eqb (fst c)) denylist) eqn:E.
  - apply existsb_exists in E as (n & Hn & Heq).
    apply String.eqb_eq in Heq. subst n.
    apply existsb_exists. exists (fst c). split; [|apply String.eqb_refl].
    apply filter_In. split; [assumption|]. apply has_column_In.
    now apply in_map.
  - destruct (existsb _ (List.filter _ _)) eqn:Ex; [|reflexivity].
    apply existsb_exists in Ex as (n & Hn & Heq).
    apply filter_In in Hn as [Hn _].
    assert (existsb (String.eqb (fst c)) denylist = true) as E'
      by (apply existsb_exists; now exists n).
    congruence.
Qed.

Lemma DataFrame_eq (a b : DataFrame) :
  nrows a = nrows b -> cols a = cols b -> a = b.
Proof. destruct a, b. simpl. now intros -> ->. Qed.

Lemma after_missing_passes (raw : DataFrame) :
  wf raw ->
  after_missing raw = mkDF (nrows raw) (List.filter passes (cols raw)).
Proof.
  intros Hwf.
  assert (wf (after_constant raw)) as W1 by now apply wf_dropped.
  assert (wf (after_quasi raw)) as W2 by now apply wf_dropped.
  assert (wf (after_denylist raw)) as W3 by now apply wf_dropped.
  apply DataFrame_eq; [reflexivity|].
  unfold after_missing, cols_trop_nan.
  rewrite (dropped_selected _ _ (proj1 W3)).
  unfold after_denylist. rewrite dropped_denylist.
  unfold after_quasi, quasi_const_cols.
  rewrite (dropped_selected _ _ (proj1 W1)).
  unfold after_constant, constant_cols.
  rewrite (dropped_selected _ _ (proj1 Hwf)).
  rewrite !filter_twice. cbn [cols]. apply filter_ext. intros c.
  unfold passes. now rewrite !andb_assoc.
Qed.

(** X1.  Whatever the order of the first four steps in the script, together
    they keep exactly the columns that pass the four tests, in the order of
    the table: the pruned table is the input filtered once by [passes] and
    then by the names of the correlation step. *)
Theorem pruning_is_one_pass `{CorrLib} (raw : DataFrame) :
  wf raw ->
  after_missing raw = mkDF (nrows raw) (List.filter passes (cols raw)) /\
  exists high,
    high_corr_cols (after_missing raw) = inr high /\
    prune raw
    = inr (mkDF (nrows raw)
             (List.filter
                (fun c => passes c && negb (existsb (String.eqb (fst c)) high))
                (cols raw))).
Proof.
  intros Hwf. pose proof (after_missing_passes raw Hwf) as Ha.
  split; [exact Ha|].
  destruct (prune_returns raw) as (high & Hh & Hp).
  exists high. split; [exact Hh|]. rewrite Hp. f_equal.
  apply DataFrame_eq; [reflexivity|].
  unfold dropped at 1. cbn [cols]. rewrite Ha. cbn [cols].
  apply filter_twice.
Qed.

Lemma denylist_absent `{CorrLib} (raw out : DataFrame) (name : string) :
  wf raw -> prune raw = inr out -> In name denylist ->
  ~ In name (columns out).
Proof.
  intros Hwf Hp Hdeny Hin.
  apply in_map_iff in Hin as (c & <- & Hc).
  pose proof (prune_sublist_missing raw out Hp) as Hs.
  eapply sublist_In in Hc; [|exact Hs].
  rewrite (after_missing_passes raw Hwf) in Hc. cbn [cols] in Hc.
  apply filter_In in Hc as [_ Hpass]. unfold passes in Hpass.
  apply andb_true_iff in Hpass as [Hpass _].
  apply andb_true_iff in Hpass as [_ Hd]. apply negb_true_iff in Hd.
  assert (denylisted (fst c) = true) as Hd'; [|congruence].
  apply existsb_exists. exists (fst c). split; [assumption|].
  apply String.eqb_refl.
Qed.

(** X2.  No name of the fixed list of step 4 is a column of the pruned
    table, and the list the step would drop from it is empty. *)
Theorem denylisted_names_are_gone `{CorrLib} (raw out : DataFrame) :
  wf raw -> prune raw = inr out ->
  (forall name, In name denylist -> ~ In name (columns out)) /\
  cols_to_remove out = [].
Proof.
  intros Hwf Hp. split.
  - intros name. now apply (denylist_absent raw out name).
  - unfold cols_to_remove. apply filter_none. intros name Hname.
    destruct (has_column out name) eqn:E; [|reflexivity].
    apply has_column_In in E.
    now apply (denylist_absent raw out name) in E.
Qed.

(** ** Which names the correlation step picks *)

Lemma nth_error_combine {A B} (l : list A) (l' : list B) (i : nat) :
  nth_error (combine l l') i
  = match nth_error l i, nth_error l' i with
    | Some a, Some b => Some (a, b)
    | _, _ => None
    end.
Proof.
  revert l' i. induction l as [|a l IH]; intros [|b l'] [|i]; simpl; auto.
  now destruct (nth_error l i).
Qed.

Lemma In_combine_seq {A} (l : list A) (j : nat) (x : A) :
  In (j, x) (combine (seq 0 (length l)) l) <-> nth_error l j = Some x.
Proof.
  split.
  - intros Hin. apply In_nth_error in Hin as (k & Hk).
    rewrite nth_error_combine in Hk.
    destruct (nth_error (seq 0 (length l)) k) as [j'|] eqn:Ej; [|discriminate].
    destruct (nth_error l k) as [x'|] eqn:Ex; [|discriminate].
    injection Hk as -> ->.
    assert (k < length l)%nat as Hlt
      by (apply nth_error_Some; congruence).
    rewrite nth_error_seq in Ej.
    destruct (Nat.ltb_spec k (length l)); [|lia].
    injection Ej as <-. exact Ex.
  - intros Hj. apply (nth_error_In _ j). rewrite nth_error_combine, Hj.
    assert (j < length l)%nat as Hlt
      by (apply nth_error_Some; congruence).
    rewrite nth_error_seq.
    destruct (Nat.ltb_spec j (length l)); [reflexivity|lia].
Qed.

Lemma list_remove_In (x : string) (l r : list string) :
  List.NoDup l -> list_remove x l = inr r ->
  forall y, In y r <-> In y l /\ y <> x.
Proof.
  revert r. induction l as [|z l IH]; simpl; intros r Hnd Hr y; [easy|].
  inversion Hnd as [|? ? Hz Hl]; subst.
  destruct (String.eqb x z) eqn:E.
  - apply String.eqb_eq in E. subst z. injection Hr as <-. split.
    + intros Hy. split; [now right|]. intros ->. contradiction.
    + intros [[->|Hy] Hne]; [congruence|assumption].
  - apply String.eqb_neq in E.
    destruct (list_remove x l) as [e|r'] eqn:Er; [discriminate|].
    simpl in Hr. injection Hr as <-. simpl. rewrite (IH r' Hl eq_refl y).
    split.
    + intros [->|[Hy Hne]]; [split; [now left|congruence]|].
      split; [now right|assumption].
    + intros [[->|Hy] Hne]; [now left|right; now split].
Qed.

Section CorrelationPicks.
Context `{CorrLib}.

Lemma upper_triangle_height (df : DataFrame) :
  length (rows (upper_triangle df)) = length (numeric_cols df).
Proof.
  unfold upper_triangle, matrix_where, matrix_abs, corr, triu_ones,
    numeric_cols.
  cbn [rows labels].
  rewrite length_map, length_combine, !length_map, length_seq.
  unfold columns. rewrite length_map. apply Nat.min_id.
Qed.

(** The frame [upper_triangle], entry by entry: the coefficient above the
    diagonal, NaN on it and below. *)
Lemma upper_triangle_entry (df : DataFrame) (i j : nat) :
  (i < length (numeric_cols df))%nat ->
  (j < length (numeric_cols df))%nat ->
  nth j (nth i (rows (upper_triangle df)) []) None
  = if (i + 1 <=? j)%nat then pair_corr df i j else None.
Proof.
  intros Hi Hj. rewrite <- iloc_abs_corr. unfold iloc.
  set (m := matrix_abs (corr (select_dtypes_number df))).
  unfold upper_triangle. fold m. unfold matrix_where. cbn [rows].
  assert (length (labels m) = length (numeric_cols df)) as ->
    by (unfold m; rewrite abs_corr_labels; apply length_map).
  set (n := length (numeric_cols df)) in *.
  assert (length (rows m) = n) as Hrows.
  { unfold m, matrix_abs, corr. cbn [rows]. rewrite !length_map.
    reflexivity. }
  rewrite nth_map_error, nth_error_combine.
  rewrite (nth_error_nth' (rows m) [] (n := i)) by lia.
  assert (nth_error (triu_ones n 1) i
          = Some (map (fun j => (i + 1 <=? j)%nat) (seq 0 n))) as ->.
  { unfold triu_ones. rewrite nth_error_map, nth_error_seq.
    destruct (Nat.ltb_spec i n); [reflexivity|lia]. }
  cbn [fst snd].
  rewrite nth_map_error, nth_error_combine, nth_error_map, nth_error_seq.
  destruct (Nat.ltb_spec j n); [|lia]. cbn [option_map].
  destruct (nth_error (nth i (rows m) []) j) as [x|] eqn:Ex.
  - cbn [fst snd]. erewrite nth_error_nth by exact Ex. reflexivity.
  - apply nth_error_None in Ex. rewrite nth_overflow by exact Ex.
    now destruct (i + 1 <=? j)%nat.
Qed.

(** A name is picked when some earlier numeric column has an absolute
    coefficient above 0.9 with the column of that name. *)
Lemma high_before_protection_In (df : DataFrame) (name : string) :
  In name (high_before_protection df) <->
  exists i j,
    (i < j < length (numeric_cols df))%nat /\
    nth_error (map fst (numeric_cols df)) j = Some name /\
    Num.gt (pair_corr df i j) (9 # 10) = true.
Proof.
  unfold high_before_protection. rewrite upper_triangle_labels.
  change (columns (select_dtypes_number df))
    with (map fst (numeric_cols df)).
  set (n := length (numeric_cols df)).
  assert (length (map fst (numeric_cols df)) = n) as Hn
    by apply length_map.
  rewrite in_map_iff. split.
  - intros ([j name'] & Heq & Hf). simpl in Heq. subst name'.
    apply filter_In in Hf as [Hin Hex]. apply In_combine_seq in Hin.
    assert (j < n)%nat as Hj
      by (rewrite <- Hn; apply nth_error_Some; congruence).
    cbn [fst] in Hex. apply existsb_exists in Hex as (x & Hx & Hgt).
    unfold matrix_col in Hx. apply in_map_iff in Hx as (r & <- & Hr).
    apply (In_nth _ _ []) in Hr as (i & Hi & <-).
    rewrite upper_triangle_height in Hi. fold n in Hi.
    rewrite upper_triangle_entry in Hgt by assumption.
    destruct (Nat.leb_spec (i + 1) j); [|discriminate].
    exists i, j. repeat split; try assumption; lia.
  - intros (i & j & (Hij & Hj) & Hname & Hgt).
    exists (j, name). split; [reflexivity|]. apply filter_In. split.
    + now apply In_combine_seq.
    + cbn [fst]. apply existsb_exists.
      exists (nth j (nth i (rows (upper_triangle df)) []) None). split.
      * unfold matrix_col.
        apply (in_map (fun r => nth j r None)). apply nth_In.
        rewrite upper_triangle_height. fold n. lia.
      * rewrite upper_triangle_entry by (fold n; lia).
        destruct (Nat.leb_spec (i + 1) j); [assumption|lia].
Qed.

(** The list after the protection: the picked names but "Churn". *)
Lemma high_corr_cols_In (df : DataFrame) (high : list string) :
  List.NoDup (columns df) -> high_corr_cols df = inr high ->
  forall name,
    In name high <->
    name <> "Churn" /\ In name (high_before_protection df).
Proof.
  intros Hnd Hh name.
  assert (List.NoDup (high_before_protection df)) as Hnd'.
  { eapply sublist_ListNoDup; [apply high_before_protection_sublist|].
    eapply sublist_ListNoDup; [|exact Hnd].
    apply sublist_map, select_dtypes_sublist. }
  unfold high_corr_cols in Hh.
  destruct (existsb (String.eqb "Churn") (high_before_protection df))
    eqn:E.
  - rewrite (list_remove_In _ _ _ Hnd' Hh name). tauto.
  - injection Hh as <-. split; [|tauto]. intros Hin. split; [|exact Hin].
    intros ->.
    assert (existsb (String.eqb "Churn") (high_before_protection df)
            = true) as E'; [|congruence].
    apply existsb_exists. exists "Churn". split; [exact Hin|reflexivity].
Qed.

End CorrelationPicks.

(** ** Pruning a pruned table *)

Lemma sublist_nth_error {A} (l' l : list A) (j : nat) (b : A) :
  sublist l' l -> nth_error l' j = Some b ->
  exists j', nth_error l j' = Some b.
Proof.
  intros Hs Hj. apply nth_error_In in Hj.
  apply In_nth_error. eapply sublist_In; eassumption.
Qed.

(** A sub-sequence keeps the order of its elements. *)
Lemma sublist_nth_error_ordered {A} (l' l : list A) (i j : nat) (a b : A) :
  sublist l' l -> (i < j)%nat ->
  nth_error l' i = Some a -> nth_error l' j = Some b ->
  exists i' j',
    (i' < j')%nat /\ nth_error l i' = Some a /\ nth_error l j' = Some b.
Proof.
  intros Hs. revert i j.
  induction Hs as [|x l1 l2 Hs IH|x l1 l2 Hs IH]; intros i j Hij Hi Hj.
  - destruct i; discriminate.
  - destruct j as [|j]; [lia|]. destruct i as [|i].
    + simpl in Hi, Hj. injection Hi as ->.
      destruct (sublist_nth_error _ _ _ _ Hs Hj) as (j' & Hj').
      exists 0%nat, (S j'). repeat split; [lia|assumption].
    + simpl in Hi, Hj.
      destruct (IH i j ltac:(lia) Hi Hj) as (i' & j' & Hlt & Hi' & Hj').
      exists (S i'), (S j'). repeat split; [lia|assumption|assumption].
  - destruct (IH i j Hij Hi Hj) as (i' & j' & Hlt & Hi' & Hj').
    exists (S i'), (S j'). repeat split; [lia|assumption|assumption].
Qed.

Lemma filter_sublist_mono {A} (f : A -> bool) (l' l : list A) :
  sublist l' l -> sublist (List.filter f l') (List.filter f l).
Proof.
  induction 1 as [|x l1 l2 Hs IH|x l1 l2 Hs IH]; simpl.
  - constructor.
  - destruct (f x); [now constructor|assumption].
  - destruct (f x); [now constructor|assumption].
Qed.

Section Repruning.
Context `{CorrLib}.

Lemma pair_corr_columns (df : DataFrame) (i j : nat)
    (a b : string * Series) :
  nth_error (numeric_cols df) i = Some a ->
  nth_error (numeric_cols df) j = Some b ->
  pair_corr df i j
  = Num.abs (pearson (numeric_values (snd a)) (numeric_values (snd b))).
Proof.
  intros Ha Hb. unfold pair_corr, pair_pearson. now rewrite Ha, Hb.
Qed.

(** A pair above 0.9 in a sub-table of [df] made of columns of [df], in
    their order, is a pair above 0.9 in [df]. *)
Lemma picked_in_sub_table (df sub : DataFrame) (name : string) :
  sublist (cols sub) (cols df) ->
  In name (high_before_protection sub) ->
  In name (high_before_protection df).
Proof.
  intros Hs Hin.
  apply high_before_protection_In in Hin
    as (i & j & (Hij & Hj) & Hname & Hgt).
  rewrite nth_error_map in Hname.
  destruct (nth_error (numeric_cols sub) j) as [b|] eqn:Eb; [|discriminate].
  injection Hname as Hname.
  destruct (nth_error (numeric_cols sub) i) as [a|] eqn:Ea.
  2:{ apply nth_error_None in Ea. lia. }
  assert (sublist (numeric_cols sub) (numeric_cols df)) as Hsn
    by (apply filter_sublist_mono, Hs).
  destruct (sublist_nth_error_ordered _ _ i j a b Hsn Hij Ea Eb)
    as (i' & j' & Hlt & Ha' & Hb').
  apply high_before_protection_In. exists i', j'. split; [|split].
  - split; [exact Hlt|]. apply nth_error_Some. congruence.
  - rewrite nth_error_map, Hb'. simpl. now rewrite Hname.
  - rewrite (pair_corr_columns df i' j' a b Ha' Hb').
    now rewrite <- (pair_corr_columns sub i j a b Ea Eb).
Qed.

(** In the pruned table the correlation step can only pick "Churn". *)
Lemma repruned_picks_only_churn (raw out : DataFrame) (name : string) :
  wf raw -> prune raw = inr out ->
  In name (high_before_protection out) -> name = "Churn".
Proof.
  intros Hwf Hp Hin.
  destruct (prune_returns raw) as (high & Hh & Hp').
  rewrite Hp in Hp'. injection Hp' as ->.
  assert (wf (after_missing raw)) as W4.
  { eapply wf_sublist; [exact Hwf|reflexivity|].
    apply after_missing_sublist. }
  destruct (String.eqb name "Churn") eqn:E;
    [now apply String.eqb_eq in E|].
  apply String.eqb_neq in E. exfalso.
  assert (In name high) as Hhigh.
  { apply (high_corr_cols_In _ _ (proj1 W4) Hh). split; [exact E|].
    eapply picked_in_sub_table; [apply dropped_sublist|exact Hin]. }
  pose proof (high_before_protection_sublist
                (dropped high (after_missing raw))) as Hs.
  eapply sublist_In in Hin; [|exact Hs].
  apply in_map_iff in Hin as (c & <- & Hc).
  eapply sublist_In in Hc; [|apply select_dtypes_sublist].
  exact (dropped_listed _ _ _ Hc Hhigh).
Qed.

Lemma repruned_high_corr_cols (raw out : DataFrame) :
  wf raw -> prune raw = inr out -> high_corr_cols out = inr [].
Proof.
  intros Hwf Hp.
  assert (wf out) as Wout.
  { destruct (prune_sublist raw out Hp) as [Hn Hs].
    eapply wf_sublist; eassumption. }
  assert (List.NoDup (high_before_protection out)) as Hnd.
  { eapply sublist_ListNoDup; [apply high_before_protection_sublist|].
    eapply sublist_ListNoDup; [|exact (proj1 Wout)].
    apply sublist_map, select_dtypes_sublist. }
  pose proof (fun name => repruned_picks_only_churn raw out name Hwf Hp)
    as Honly.
  unfold high_corr_cols.
  destruct (high_before_protection out) as [|x l]; [reflexivity|].
  assert (x = "Churn") as -> by (apply Honly; now left).
  assert (l = []) as ->.
  { destruct l as [|y l]; [reflexivity|]. exfalso.
    assert (y = "Churn") as -> by (apply Honly; right; now left).
    inversion Hnd as [|? ? Hx _]; subst. apply Hx. now left. }
  reflexivity.
Qed.

(** X4.  Pruning is idempotent: the five steps remove nothing from a table
    they have produced, and the script run on it leaves the same table in
    [df_clean]. *)
Theorem pruning_is_idempotent (raw out : DataFrame) :
  wf raw -> prune raw = inr out ->
  prune out = inr out /\
  forall st, exists d c st',
    main out st = Done (d, c) st' /\ heap st' !! c = Some out.
Proof.
  intros Hwf Hp.
  assert (prune out = inr out) as Hidem.
  { pose proof (prune_survivors raw out Hp) as HF.
    rewrite List.Forall_forall in HF.
    assert (constant_cols out = []) as E1.
    { unfold constant_cols. rewrite filter_none; [reflexivity|].
      intros c Hc. apply (HF c Hc). }
    assert (quasi_const_cols out = []) as E2.
    { unfold quasi_const_cols. rewrite filter_none; [reflexivity|].
      intros c Hc. apply (HF c Hc). }
    assert (cols_trop_nan out = []) as E4.
    { unfold cols_trop_nan. rewrite filter_none; [reflexivity|].
      intros c Hc. apply (HF c Hc). }
    assert (cols_to_remove out = []) as E3.
    { unfold cols_to_remove. apply filter_none. intros name Hname.
      destruct (has_column out name) eqn:E; [|reflexivity].
      apply has_column_In in E.
      now apply (denylist_absent raw out name) in E. }
    assert (after_missing out = out) as Ha.
    { unfold after_missing, after_denylist, after_quasi, after_constant.
      rewrite E1, dropped_nil, E2, dropped_nil, E3, dropped_nil, E4.
      apply dropped_nil. }
    destruct (prune_returns out) as (high & Hh & Hpo).
    rewrite Ha in Hh, Hpo.
    rewrite (repruned_high_corr_cols raw out Hwf Hp) in Hh.
    injection Hh as <-. now rewrite dropped_nil in Hpo. }
  split; [exact Hidem|]. intros st.
  destruct (main_run out st) as (out' & st' & Hp' & Hm & Hheap & _).
  rewrite Hidem in Hp'. injection Hp' as <-.
  exists (ref_df st), (ref_df_clean st out), st'.
  split; [exact Hm|]. rewrite Hheap. apply lookup_insert_eq.
Qed.

Lemma analyser_correlation_Some (df : DataFrame) (seuil : Q)
    (heatmap : bool) (report : list CorrRow) :
  snd (analyser_correlation df seuil heatmap) = Some report ->
  report
  = sort_values_desc Correlation
      (paires (matrix_abs (corr (select_dtypes_number df))) seuil).
Proof.
  unfold analyser_correlation.
  destruct (empty (select_dtypes_number df)); [discriminate|].
  destruct (paires _ seuil) as [|r rs]; [discriminate|].
  now intros [= <-].
Qed.

Lemma analyser_correlation_nonempty (df : DataFrame) (seuil : Q)
    (heatmap : bool) (report : list CorrRow) :
  snd (analyser_correlation df seuil heatmap) = Some report ->
  report <> [].
Proof.
  unfold analyser_correlation.
  destruct (empty (select_dtypes_number df)); [discriminate|].
  destruct (paires _ seuil) as [|r rs]; [discriminate|].
  intros Heq Hnil. subst report. cbn [snd] in Heq. injection Heq as Heq.
  assert (Permutation (r :: rs) []) as P
    by (rewrite <- Heq;
        exact (sort_values_desc_perm Correlation (r :: rs))).
  apply Permutation_sym, Permutation_nil in P. discriminate.
Qed.

Lemma analyser_correlation_In (df : DataFrame) (seuil : Q)
    (heatmap : bool) (report : list CorrRow) (row : CorrRow) :
  snd (analyser_correlation df seuil heatmap) = Some report ->
  In row report ->
  exists i j v,
    reportable df seuil i j v /\
    row = mkCorrRow (numeric_name df i) (numeric_name df j) (Num.round v 3).
Proof.
  intros Hr Hin. apply analyser_correlation_Some in Hr. subst report.
  apply In_paires.
  eapply Permutation_in; [symmetry; apply sort_values_desc_perm|exact Hin].
Qed.

End Repruning.

(** ** What the script prints and writes *)

(** X6.  The script prints the shape of the table it read, then the shape of
    the pruned table, then writes that table, the one [df_clean] holds, to
    the CSV file: nothing else is sent out, the two shapes have the same
    number of rows, and the second has no more columns than the first. *)
Theorem script_writes_the_pruned_table `{CorrLib}
    (raw : DataFrame) (st : Store) :
  wf raw ->
  exists d c st' out,
    main raw st = Done (d, c) st' /\
    heap st' !! c = Some out /\
    output st' =
      (output st ++
         [PrintShape "Shape initial :" (nrows raw, length (cols raw));
          PrintShape "Shape final :" (nrows raw, length (cols out));
          MakeDirs "../projet_ml_retail/data/processed";
          ToCsv "C:/projet/projet_ml_retail/data/processed/data_cleaned_v2.csv" out;
          PrintLine "✔ Dataset nettoyé sauvegardé avec succès"])%list /\
    (length (cols out) <= length (cols raw))%nat.
Proof.
  intros _. destruct (main_run raw st) as (out & st' & Hp & Hm & Hh & Ho).
  exists (ref_df st), (ref_df_clean st raw), st', out.
  destruct (prune_sublist raw out Hp) as [Hn Hs].
  split; [exact Hm|]. split; [rewrite Hh; apply lookup_insert_eq|].
  split; [|now apply sublist_length].
  rewrite Ho. unfold shape. now rewrite Hn.
Qed.

(** * Further properties of the helpers *)

(** ** Rounding stays between two integers *)

Lemma round_half_even_bounds (x : Q) (z1 z2 : Z) :
  (inject_Z z1 <= x)%Q -> (x <= inject_Z z2)%Q ->
  (z1 <= Num.round_half_even x <= z2)%Z.
Proof.
  intros H1 H2. unfold Num.round_half_even.
  pose proof (Qfloor_le x) as Hf. pose proof (Qlt_floor x) as Hf'.
  assert (z1 <= Qfloor x)%Z as L1.
  { assert (z1 < Qfloor x + 1)%Z; [|lia]. rewrite Zlt_Qlt.
    eapply Qle_lt_trans; eassumption. }
  assert (Qfloor x <= z2)%Z as L2.
  { rewrite Zle_Qle. eapply Qle_trans; eassumption. }
  destruct (Num.Qltb (x - inject_Z (Qfloor x)) (1 # 2)) eqn:E; [lia|].
  assert (Qfloor x <> z2) as Hne.
  { intros Heq. apply Qltb_ge in E. rewrite Heq in E.
    assert (x - inject_Z z2 <= 0)%Q as Hle.
    { apply (Qplus_le_l _ _ (inject_Z z2)). ring_simplify. exact H2. }
    assert ((1 # 2) <= 0)%Q as Habs by (eapply Qle_trans; eassumption).
    apply (Qle_not_lt _ _ Habs). reflexivity. }
  destruct (Num.Qltb (1 # 2) (x - inject_Z (Qfloor x)));
    [lia|destruct (Z.even (Qfloor x)); lia].
Qed.

Lemma round_bounds (x : Q) (d : nat) (z1 z2 : Z) :
  (inject_Z z1 <= x)%Q -> (x <= inject_Z z2)%Q ->
  (inject_Z z1 <= Num.round x d)%Q /\ (Num.round x d <= inject_Z z2)%Q.
Proof.
  intros H1 H2. unfold Num.round. set (s := (10 ^ Z.of_nat d)%Z).
  assert (0 < s)%Z as Hs by (apply Z.pow_pos_nonneg; lia).
  assert (0 < inject_Z s)%Q as Hsq.
  { change 0%Q with (inject_Z 0). now rewrite <- Zlt_Qlt. }
  destruct (round_half_even_bounds (x * inject_Z s) (z1 * s) (z2 * s))
    as [L1 L2].
  - rewrite inject_Z_mult. apply Qmult_le_compat_r; [exact H1|].
    now apply Qlt_le_weak.
  - rewrite inject_Z_mult. apply Qmult_le_compat_r; [exact H2|].
    now apply Qlt_le_weak.
  - rewrite Qred_correct. split.
    + apply Qle_shift_div_l; [exact Hsq|].
      rewrite <- inject_Z_mult, <- Zle_Qle. exact L1.
    + apply Qle_shift_div_r; [exact Hsq|].
      rewrite <- inject_Z_mult, <- Zle_Qle. exact L2.
Qed.

(** ** The report of [analyser_nan] *)

Lemma combine_map_self {A B} (g : A -> B) (l : list A) :
  combine l (map g l) = map (fun x => (x, g x)) l.
Proof. induction l as [|x l IH]; simpl; [reflexivity|now rewrite IH]. Qed.

Lemma analyser_nan_report (df : DataFrame) :
  empty df = false ->
  analyser_nan df
  = Some (sort_values_desc Pourcentage
            (List.filter (fun r => (0 <? Nb_NaN r)%nat)
               (map (nan_row (nrows df)) (cols df)))).
Proof.
  intros He. unfold analyser_nan. rewrite He. do 2 f_equal.
  rewrite combine_map_self, !map_map. reflexivity.
Qed.

Lemma isna_sum_le_len (s : Series) : (isna_sum s <= series_len s)%nat.
Proof. pose proof (present_plus_missing s). lia. Qed.

(** X7.  On a table with rows and columns, the report of [analyser_nan] has
    one row for each column with at least one missing value and no other
    row: every row carries the name of such a column, its number of missing
    values and that number as a percentage of the rows, rounded to 2
    decimals; every such column has its row; no two rows have the same
    name; the rows come by decreasing percentage. *)
Theorem analyser_nan_lists_columns_with_missing (df : DataFrame) :
  wf df -> empty df = false ->
  exists report,
    analyser_nan df = Some report /\
    (forall row,
        In row report ->
        exists s,
          In (nan_column row, s) (cols df) /\
          (0 < isna_sum s)%nat /\
          Nb_NaN row = isna_sum s /\
          rounded_to 2
            ((Z.of_nat (isna_sum s) # Pos.of_nat (nrows df)) * 100)%Q
            (Pourcentage row)) /\
    (forall name s,
        In (name, s) (cols df) -> (0 < isna_sum s)%nat ->
        exists row, In row report /\ nan_column row = name) /\
    List.NoDup (map nan_column report) /\
    StronglySorted (fun a b => (Pourcentage b <= Pourcentage a)%Q) report.
Proof.
  intros [Hnd _] He. eexists. split; [apply analyser_nan_report, He|].
  set (rows := List.filter (fun r => (0 <? Nb_NaN r)%nat)
                 (map (nan_row (nrows df)) (cols df))).
  pose proof (sort_values_desc_perm Pourcentage rows) as Hperm.
  assert (forall row,
             In row rows <->
             exists s,
               In (nan_column row, s) (cols df) /\
               (0 < isna_sum s)%nat /\
               row = nan_row (nrows df) (nan_column row, s)) as Hrows.
  { intros row. unfold rows. rewrite filter_In, in_map_iff. split.
    - intros (([n s] & <- & Hin) & Hpos). apply Nat.ltb_lt in Hpos.
      exists s. simpl in *. repeat split; assumption.
    - intros (s & Hin & Hpos & Hrow). split.
      + exists (nan_column row, s). split; [now symmetry|assumption].
      + rewrite Hrow. simpl. now apply Nat.ltb_lt. }
  split; [|split; [|split]].
  - intros row Hin.
    eapply Permutation_in in Hin; [|symmetry; exact Hperm].
    apply Hrows in Hin as (s & Hin & Hpos & Hrow).
    exists s. split; [exact Hin|]. split; [exact Hpos|].
    rewrite Hrow. simpl. split; [reflexivity|]. apply round_rounded_to.
  - intros name s Hin Hpos. exists (nan_row (nrows df) (name, s)).
    split; [|reflexivity].
    eapply Permutation_in; [exact Hperm|]. apply Hrows.
    exists s. simpl. repeat split; assumption.
  - eapply Permutation_NoDup; [apply Permutation_map; exact Hperm|].
    eapply sublist_ListNoDup; [|exact Hnd].
    unfold rows, columns.
    replace (map fst (cols df))
      with (map nan_column (map (nan_row (nrows df)) (cols df)))
      by (rewrite map_map; reflexivity).
    apply sublist_map, filter_sublist.
  - apply sort_values_desc_sorted.
Qed.

(** X8.  On a table with rows and columns, every row of the report of
    [analyser_nan] has between 1 and [len(df)] missing values and a
    percentage between 0 and 100. *)
Theorem analyser_nan_rows_in_range (df : DataFrame) (report : list NanRow)
    (row : NanRow) :
  wf df -> analyser_nan df = Some report -> In row report ->
  (1 <= Nb_NaN row <= nrows df)%nat /\
  (0 <= Pourcentage row)%Q /\ (Pourcentage row <= 100)%Q.
Proof.
  intros [_ Hlen] Hr Hin.
  destruct (empty df) eqn:He;
    [unfold analyser_nan in Hr; rewrite He in Hr; discriminate|].
  rewrite (analyser_nan_report df He) in Hr. injection Hr as <-.
  eapply Permutation_in in Hin; [|symmetry; apply sort_values_desc_perm].
  apply filter_In in Hin as [Hin Hpos]. apply Nat.ltb_lt in Hpos.
  apply in_map_iff in Hin as (c & <- & Hc).
  rewrite List.Forall_forall in Hlen. specialize (Hlen c Hc).
  pose proof (isna_sum_le_len (snd c)) as Hle. simpl in Hpos |- *.
  assert (0 < nrows df)%nat as Hn by lia.
  split; [lia|].
  apply (round_bounds _ 2 0 100).
  - apply Qmult_le_0_compat; [|discriminate].
    unfold Qle. simpl. lia.
  - unfold Qle. simpl.
    rewrite Pos.mul_1_r.
    assert (Zpos (Pos.of_nat (nrows df)) = Z.of_nat (nrows df)) as ->.
    { rewrite <- (Nat2Pos.id (nrows df)) at 2 by lia.
      now rewrite positive_nat_Z. }
    lia.
Qed.

(** X9.  After pruning, the missing-value summary shows no column above
    40 %: every row of the report of [analyser_nan] on the pruned table has a
    percentage of at most 40. *)
Theorem pruned_table_missing_at_most_40 `{CorrLib} (raw out : DataFrame)
    (report : list NanRow) (row : NanRow) :
  wf raw -> prune raw = inr out ->
  analyser_nan out = Some report -> In row report ->
  (Pourcentage row <= 40)%Q.
Proof.
  intros Hwf Hp Hr Hin.
  assert (wf out) as [_ Hlen].
  { destruct (prune_sublist raw out Hp) as [Hn Hs].
    eapply wf_sublist; eassumption. }
  destruct (empty out) eqn:He;
    [unfold analyser_nan in Hr; rewrite He in Hr; discriminate|].
  rewrite (analyser_nan_report out He) in Hr. injection Hr as <-.
  eapply Permutation_in in Hin; [|symmetry; apply sort_values_desc_perm].
  apply filter_In in Hin as [Hin _].
  apply in_map_iff in Hin as (c & <- & Hc).
  pose proof (prune_survivors raw out Hp) as HF.
  rewrite List.Forall_forall in HF, Hlen.
  destruct (HF c Hc) as (_ & _ & Hmiss). specialize (Hlen c Hc).
  unfold isna_mean in Hmiss. rewrite Hlen in Hmiss.
  assert (0 < nrows out)%nat as Hn.
  { unfold empty in He. apply orb_false_iff in He as [He _].
    apply Nat.eqb_neq in He. lia. }
  destruct (nrows out) as [|n] eqn:En; [lia|]. rewrite <- En in *.
  simpl in Hmiss. apply Qltb_ge in Hmiss. unfold threshold in Hmiss.
  cbn [nan_row Pourcentage].
  apply (round_bounds _ 2 0 40).
  - apply Qmult_le_0_compat; [|discriminate]. unfold Qle. simpl. lia.
  - unfold Qle in *. simpl in *. rewrite Pos.mul_1_r. lia.
Qed.

(** ** [detecter_outliers] on a column that cannot have outliers *)

Lemma detecter_outliers_numeric (df : DataFrame) (colonne : string)
    (v : list (option Q)) :
  wf df -> In (colonne, NumCol v) (cols df) ->
  detecter_outliers df colonne
  = let q1 := quantile v (25 # 100) in
    let q3 := quantile v (75 # 100) in
    let lo := Num.sub q1 (Num.scale (15 # 10) (Num.sub q3 q1)) in
    let hi := Num.add q3 (Num.scale (15 # 10) (Num.sub q3 q1)) in
    inr (selected (map (fun x => Num.lt2 x lo || Num.gt2 x hi) v), lo, hi).
Proof.
  intros [Hnd _] Hin. unfold detecter_outliers.
  assert (has_column df colonne = true) as ->.
  { apply has_column_In. unfold columns.
    apply in_map_iff. now exists (colonne, NumCol v). }
  rewrite (In_getitem df colonne (NumCol v) Hnd Hin). reflexivity.
Qed.

Lemma selected_none {A} (f : A -> bool) (l : list A) :
  (forall x, In x l -> f x = false) -> selected (map f l) = 0%nat.
Proof.
  intros Hf. unfold selected. rewrite filter_none; [reflexivity|].
  intros b Hb. apply in_map_iff in Hb as (x & <- & Hx). now apply Hf.
Qed.

(** X10.  On a numeric column with no value at all, [detecter_outliers]
    returns no outlier and two bounds that are NaN; it does not raise. *)
Theorem outliers_of_a_column_without_value (df : DataFrame)
    (colonne : string) (v : list (option Q)) :
  wf df -> In (colonne, NumCol v) (cols df) -> dropna v = [] ->
  detecter_outliers df colonne = inr (0%nat, None, None).
Proof.
  intros Hwf Hin Hv. rewrite (detecter_outliers_numeric df colonne v Hwf Hin).
  unfold quantile. rewrite Hv. simpl.
  rewrite selected_none; [reflexivity|]. intros x _. reflexivity.
Qed.

Lemma dropna_In {A} (l : list (option A)) (x : A) :
  In (Some x) l <-> In x (dropna l).
Proof.
  induction l as [|[y|] l IH]; simpl; [tauto| |].
  - rewrite <- IH. split; intros [E|Hin]; auto; left; congruence.
  - rewrite <- IH. split; [intros [E|Hin]; [discriminate|assumption]|auto].
Qed.

Lemma insert_Forall (P : Q -> Prop) (x : Q) (l : list Q) :
  P x -> Forall P l -> Forall P (Num.insert x l).
Proof.
  intros Hx. induction 1 as [|y l Hy Hl IH]; simpl.
  - now constructor.
  - destruct (Qle_bool x y); repeat constructor; assumption.
Qed.

Lemma sort_Forall (P : Q -> Prop) (l : list Q) :
  Forall P l -> Forall P (Num.sort l).
Proof.
  induction 1 as [|x l Hx Hl IH]; simpl; [constructor|].
  now apply insert_Forall.
Qed.

Lemma sort_length (l : list Q) : length (Num.sort l) = length l.
Proof.
  assert (forall x s, length (Num.insert x s) = S (length s)) as Hins.
  { intros x s. induction s as [|y s IH]; simpl; [reflexivity|].
    destruct (Qle_bool x y); simpl; now rewrite ?IH. }
  induction l as [|x l IH]; simpl; [reflexivity|]. now rewrite Hins, IH.
Qed.

(** The quantiles of a column whose values are all equal to [c]. *)
Lemma quantile_constant (c q : Q) (v : list (option Q)) :
  constant_at c v -> dropna v <> [] ->
  exists x, quantile v q = Some x /\ (x == c)%Q.
Proof.
  intros Hc Hne. unfold quantile.
  pose proof (sort_Forall _ _ Hc) as Hs.
  pose proof (sort_length (dropna v)) as Hl.
  destruct (Num.sort (dropna v)) as [|x0 xs] eqn:E.
  - destruct (dropna v); [now contradiction Hne|discriminate].
  - eexists. split; [reflexivity|]. rewrite Qred_correct.
    rewrite List.Forall_forall in Hs.
    assert (forall i, (nth i (x0 :: xs) x0 == c)%Q) as Hnth.
    { intros i. destruct (nth_in_or_default i (x0 :: xs) x0) as [Hin| ->].
      - now apply Hs.
      - apply Hs. now left. }
    rewrite !Hnth. ring.
Qed.

(** X11.  On a numeric column whose values are all the same, the two bounds
    of [detecter_outliers] are that value and no row is an outlier. *)
Theorem outliers_of_a_constant_column (df : DataFrame) (colonne : string)
    (v : list (option Q)) (c : Q) :
  wf df -> In (colonne, NumCol v) (cols df) ->
  constant_at c v -> dropna v <> [] ->
  exists lo hi,
    detecter_outliers df colonne = inr (0%nat, Some lo, Some hi) /\
    (lo == c)%Q /\ (hi == c)%Q.
Proof.
  intros Hwf Hin Hc Hne.
  rewrite (detecter_outliers_numeric df colonne v Hwf Hin).
  destruct (quantile_constant c (25 # 100) v Hc Hne) as (q1 & -> & H1).
  destruct (quantile_constant c (75 # 100) v Hc Hne) as (q3 & -> & H3).
  cbn zeta. cbn [Num.sub Num.add Num.scale option_map].
  set (lo := (q1 - (15 # 10) * (q3 - q1))%Q).
  set (hi := (q3 + (15 # 10) * (q3 - q1))%Q).
  assert (lo == c)%Q as Hlo by (unfold lo; rewrite H1, H3; ring).
  assert (hi == c)%Q as Hhi by (unfold hi; rewrite H1, H3; ring).
  exists lo, hi. split; [|now split].
  rewrite selected_none; [reflexivity|].
  intros [x|] Hx; [|reflexivity].
  assert (x == c)%Q as Hxc.
  { unfold constant_at in Hc. rewrite List.Forall_forall in Hc.
    apply Hc. now apply dropna_In. }
  apply orb_false_iff. split; simpl; apply Qltb_ge.
  - rewrite Hlo, Hxc. apply Qle_refl.
  - rewrite Hhi, Hxc. apply Qle_refl.
Qed.

(** ** The bounds of [detecter_outliers] are in order *)

Lemma insert_sorted (x : Q) (l : list Q) :
  StronglySorted Qle l -> StronglySorted Qle (Num.insert x l).
Proof.
  induction l as [|y l IH]; simpl; intros Hs.
  - repeat constructor.
  - apply StronglySorted_inv in Hs as [Hl Hy].
    destruct (Qle_bool x y) eqn:E.
    + apply Qle_bool_iff in E. constructor; [now constructor|].
      constructor; [exact E|].
      rewrite List.Forall_forall in Hy |- *. intros z Hz.
      eapply Qle_trans; [exact E|exact (Hy z Hz)].
    + assert (y <= x)%Q as Hyx.
      { apply Qlt_le_weak, Qnot_le_lt. intros Hle.
        apply Qle_bool_iff in Hle. congruence. }
      constructor; [now apply IH|]. now apply insert_Forall.
Qed.

Lemma sort_sorted (l : list Q) : StronglySorted Qle (Num.sort l).
Proof.
  induction l as [|x l IH]; simpl; [constructor|]. now apply insert_sorted.
Qed.

Lemma sorted_nth_le (l : list Q) (i j : nat) (d : Q) :
  StronglySorted Qle l -> (i <= j)%nat -> (j < length l)%nat ->
  (nth i l d <= nth j l d)%Q.
Proof.
  intros Hs. revert i j. induction Hs as [|x l Hl IH Hx]; intros i j Hij Hj.
  - simpl in Hj. lia.
  - destruct j as [|j].
    + assert (i = 0)%nat as -> by lia. apply Qle_refl.
    + simpl in Hj. destruct i as [|i].
      * simpl. rewrite List.Forall_forall in Hx. apply Hx.
        apply nth_In. lia.
      * simpl. apply IH; lia.
Qed.

(** The interpolated value grows with the position. *)
Lemma interpolate_mono (xs : list Q) (h h' : Q) :
  StronglySorted Qle xs -> xs <> [] ->
  (0 <= h)%Q -> (h <= h')%Q ->
  (h' <= inject_Z (Z.of_nat (length xs - 1)))%Q ->
  (interpolate xs h <= interpolate xs h')%Q.
Proof.
  intros Hs Hne H0 Hh Hn. unfold interpolate.
  assert (0 < length xs)%nat as Hlen
    by (destruct xs; [now contradiction Hne|simpl; lia]).
  set (n1 := (length xs - 1)%nat) in *.
  pose proof (Qfloor_le h) as F1. pose proof (Qlt_floor h) as F2.
  pose proof (Qfloor_le h') as F1'. pose proof (Qlt_floor h') as F2'.
  rewrite inject_Z_plus in F2, F2'.
  assert (0 <= Qfloor h)%Z as P0.
  { change 0%Z with (Qfloor 0). now apply Qfloor_resp_le. }
  assert (Qfloor h <= Qfloor h')%Z as P1 by now apply Qfloor_resp_le.
  assert (Qfloor h' <= Z.of_nat n1)%Z as P2.
  { rewrite <- (Qfloor_Z (Z.of_nat n1)). now apply Qfloor_resp_le. }
  set (f := Qfloor h) in *. set (f' := Qfloor h') in *.
  set (i := Z.to_nat f). set (i' := Z.to_nat f').
  assert (i <= i')%nat as Hii by (unfold i, i'; lia).
  assert (i' <= n1)%nat as Hin by (unfold i'; lia).
  set (a := nth i xs 0%Q). set (b := nth (Nat.min (i + 1) n1) xs 0%Q).
  set (a' := nth i' xs 0%Q). set (b' := nth (Nat.min (i' + 1) n1) xs 0%Q).
  assert (a <= b)%Q as Hab by (apply sorted_nth_le; [exact Hs|lia|lia]).
  assert (a' <= b')%Q as Hab' by (apply sorted_nth_le; [exact Hs|lia|lia]).
  change (inject_Z 1) with 1%Q in F2, F2'.
  destruct (Z.eq_dec f f') as [Heq|Hneq].
  - assert (a' = a) as -> by (unfold a, a', i, i'; now rewrite Heq).
    assert (b' = b) as -> by (unfold b, b', i, i'; now rewrite Heq).
    rewrite <- Heq. clearbody a b. apply Qplus_le_r.
    apply Qmult_le_compat_r; lra.
  - assert (b <= a')%Q as Hba.
    { apply sorted_nth_le; [exact Hs| |lia]. unfold i, i'. lia. }
    clearbody a b a' b'.
    assert ((h - inject_Z f) * (b - a) <= 1 * (b - a))%Q as T1
      by (apply Qmult_le_compat_r; lra).
    assert (0 <= (h' - inject_Z f') * (b' - a'))%Q as T2
      by (apply Qmult_le_0_compat; lra).
    lra.
Qed.

Lemma nth_default_free (xs : list Q) (i : nat) (d d' : Q) :
  (i < length xs)%nat -> nth i xs d = nth i xs d'.
Proof. intros Hi. now apply nth_indep. Qed.

(** [quantile] is the interpolation in the sorted values. *)
Lemma quantile_interpolate (v : list (option Q)) (q x : Q) :
  (0 <= q)%Q -> (q <= 1)%Q -> quantile v q = Some x ->
  Num.sort (dropna v) <> [] /\
  (x == interpolate (Num.sort (dropna v))
          (inject_Z (Z.of_nat (length (Num.sort (dropna v)) - 1)) * q))%Q.
Proof.
  intros Hq0 Hq1. unfold quantile.
  destruct (Num.sort (dropna v)) as [|x0 xs] eqn:E; [discriminate|].
  assert (0 < length (x0 :: xs))%nat as Hpos by (simpl; lia).
  assert (x0 :: xs <> []) as Hne by discriminate.
  remember (x0 :: xs) as l eqn:El. clear El E xs.
  cbv zeta.
  match goal with |- Some ?t = Some x -> _ => remember t as y eqn:Ey end.
  intros [= <-]. split; [exact Hne|]. rewrite Ey, Qred_correct.
  unfold interpolate.
  set (n1 := (length l - 1)%nat).
  set (h := (inject_Z (Z.of_nat n1) * q)%Q).
  assert (0 <= inject_Z (Z.of_nat n1))%Q as Hn0.
  { change 0%Q with (inject_Z 0). rewrite <- Zle_Qle. lia. }
  assert (0 <= h)%Q as Hh0 by (unfold h; nra).
  assert (h <= inject_Z (Z.of_nat n1))%Q as Hhn by (unfold h; nra).
  assert (0 <= Qfloor h)%Z as P0.
  { change 0%Z with (Qfloor 0). now apply Qfloor_resp_le. }
  assert (Qfloor h <= Z.of_nat n1)%Z as P2.
  { rewrite <- (Qfloor_Z (Z.of_nat n1)). now apply Qfloor_resp_le. }
  assert (Z.to_nat (Qfloor h) < length l)%nat as Hi
    by (unfold n1 in P2; lia).
  rewrite (nth_default_free _ _ x0 0%Q Hi).
  rewrite (nth_default_free _ (Nat.min _ _) x0 0%Q) by (unfold n1; lia).
  reflexivity.
Qed.

(** The quantiles of a column grow with the level. *)
Lemma quantile_mono (v : list (option Q)) (q q' x x' : Q) :
  (0 <= q)%Q -> (q <= q')%Q -> (q' <= 1)%Q ->
  quantile v q = Some x -> quantile v q' = Some x' -> (x <= x')%Q.
Proof.
  intros Hq0 Hqq Hq1 Hx Hx'.
  destruct (quantile_interpolate v q x Hq0 ltac:(lra) Hx) as [Hne ->].
  destruct (quantile_interpolate v q' x' ltac:(lra) Hq1 Hx') as [_ ->].
  set (xs := Num.sort (dropna v)) in *.
  assert (0 <= inject_Z (Z.of_nat (length xs - 1)))%Q as Hn0.
  { change 0%Q with (inject_Z 0). rewrite <- Zle_Qle. lia. }
  apply interpolate_mono; [apply sort_sorted|exact Hne|nra|nra|nra].
Qed.

(** X12.  Whenever [detecter_outliers] returns bounds that are numbers, the
    lower bound is at most the upper bound. *)
Theorem outlier_bounds_in_order (df : DataFrame) (colonne : string)
    (n : nat) (lo hi : Q) :
  detecter_outliers df colonne = inr (n, Some lo, Some hi) ->
  (lo <= hi)%Q.
Proof.
  unfold detecter_outliers.
  destruct (has_column df colonne); simpl; [|discriminate].
  destruct (getitem df colonne) as [e|s]; simpl; [discriminate|].
  destruct (is_numeric_dtype s); simpl; [|discriminate].
  set (v := numeric_values s).
  destruct (quantile v (25 # 100)) as [q1|] eqn:E1; [|discriminate].
  destruct (quantile v (75 # 100)) as [q3|] eqn:E3; [|discriminate].
  cbn [Num.sub Num.add Num.scale option_map]. intros [= _ <- <-].
  assert (q1 <= q3)%Q as Hq.
  { apply (quantile_mono v (25 # 100) (75 # 100) q1 q3);
      [discriminate|discriminate|discriminate|assumption|assumption]. }
  lra.
Qed.

(** ** The threshold of [analyser_correlation] *)

Lemma analyser_correlation_result `{CorrLib} (df : DataFrame) (seuil : Q)
    (heatmap : bool) :
  snd (analyser_correlation df seuil heatmap)
  = if empty (select_dtypes_number df) then None
    else
      match paires (matrix_abs (corr (select_dtypes_number df))) seuil with
      | [] => None
      | r :: rs => Some (sort_values_desc Correlation (r :: rs))
      end.
Proof.
  unfold analyser_correlation.
  destruct (empty (select_dtypes_number df)); [reflexivity|].
  set (m := matrix_abs (corr (select_dtypes_number df))).
  destruct (paires m seuil) as [|r rs] eqn:E; [reflexivity|].
  cbn [snd]. reflexivity.
Qed.

(** X13.  Lowering the threshold of [analyser_correlation] loses no pair:
    when there is a report at a threshold, there is one at every lower
    threshold, and it has every row of the first; the flag [heatmap] does not
    matter. *)
Theorem lower_threshold_keeps_pairs `{CorrLib} (df : DataFrame)
    (seuil seuil' : Q) (heatmap heatmap' : bool) (report' : list CorrRow) :
  (seuil <= seuil')%Q ->
  snd (analyser_correlation df seuil' heatmap') = Some report' ->
  exists report,
    snd (analyser_correlation df seuil heatmap) = Some report /\
    forall row, In row report' -> In row report.
Proof.
  intros Hle Hr'.
  assert (forall row, In row report' ->
            In row (paires (matrix_abs (corr (select_dtypes_number df)))
                      seuil)) as Hrows.
  { intros row Hin.
    destruct (analyser_correlation_In df seuil' heatmap' report' row Hr' Hin)
      as (i & j & v & (Hij & Hv & Hs) & ->).
    apply In_paires. exists i, j, v. split; [|reflexivity].
    split; [exact Hij|]. split; [exact Hv|]. eapply Qle_trans; eassumption. }
  pose proof (analyser_correlation_nonempty df seuil' heatmap' report' Hr')
    as Hne.
  rewrite analyser_correlation_result in Hr' |- *.
  destruct (empty (select_dtypes_number df)); [discriminate|].
  set (m := matrix_abs (corr (select_dtypes_number df))) in *.
  destruct (paires m seuil) as [|r rs] eqn:E.
  - destruct report' as [|row rest]; [now contradiction Hne|].
    destruct (Hrows row (or_introl eq_refl)).
  - eexists. split; [reflexivity|]. intros row Hin.
    eapply Permutation_in; [apply sort_values_desc_perm|].
    now apply Hrows.
Qed.

(** ** [resume_dataset] and [analyser_nan] *)

Lemma list_sum_filter_pos {A} (f : A -> nat) (l : list A) :
  list_sum (map f (List.filter (fun x => (0 <? f x)%nat) l))
  = list_sum (map f l).
Proof.
  induction l as [|x l IH]; simpl; [reflexivity|].
  destruct (Nat.ltb_spec 0 (f x)); simpl; lia.
Qed.

Lemma list_sum_perm (l l' : list nat) :
  Permutation l l' -> list_sum l = list_sum l'.
Proof. induction 1; simpl; lia. Qed.

(** X14.  The total of missing values [resume_dataset] prints is the sum of
    the counts in the report of [analyser_nan], whenever that helper returns
    a report; the printed numbers of rows and columns are those of the
    table. *)
Theorem summary_total_is_sum_of_report `{MemoryLib} (df : DataFrame)
    (report : list NanRow) :
  analyser_nan df = Some report ->
  (forall n, In (TotalNaN n) (resume_dataset df) <->
             n = list_sum (map Nb_NaN report)) /\
  (forall n, In (Lignes n) (resume_dataset df) <-> n = nrows df) /\
  (forall n, In (Colonnes n) (resume_dataset df) <-> n = length (cols df)).
Proof.
  intros Hr.
  assert (list_sum (map Nb_NaN report) = total_nan df) as Hsum.
  { destruct (empty df) eqn:He;
      [unfold analyser_nan in Hr; rewrite He in Hr; discriminate|].
    rewrite (analyser_nan_report df He) in Hr. injection Hr as <-.
    rewrite <- (list_sum_perm _ _
                  (Permutation_map Nb_NaN
                     (sort_values_desc_perm Pourcentage _))).
    rewrite list_sum_filter_pos, map_map. reflexivity. }
  rewrite Hsum. unfold resume_dataset. cbn [shape fst snd].
  repeat split.
  - intros Hin. simpl in Hin.
    repeat (destruct Hin as [Hin|Hin]; [try discriminate|]);
      [now injection Hin|destruct Hin].
  - intros ->. simpl. tauto.
  - intros Hin. simpl in Hin.
    repeat (destruct Hin as [Hin|Hin]; [try discriminate|]);
      [now injection Hin|discriminate..|destruct Hin].
  - intros ->. simpl. tauto.
  - intros Hin. simpl in Hin.
    repeat (destruct Hin as [Hin|Hin]; [try discriminate|]);
      [now injection Hin|discriminate..|destruct Hin].
  - intros ->. simpl. tauto.
Qed.

(** * The further properties on the sample tables *)

Lemma pruning_is_one_pass_witness :
  wf customers /\
  after_missing customers
  = mkDF 4 (List.filter passes (cols customers)).
Proof.
  assert (wf customers) as Hwf by solve_wf.
  split; [exact Hwf|].
  exact (proj1 (@pruning_is_one_pass exact_corr customers Hwf)).
Defined.

Lemma denylisted_names_are_gone_witness :
  wf customers /\
  @prune exact_corr customers = inr customers_pruned /\
  ~ In "CustomerID" (columns customers_pruned) /\
  cols_to_remove customers_pruned = [].
Proof.
  assert (wf customers) as Hwf by solve_wf.
  assert (@prune exact_corr customers = inr customers_pruned) as Hp
    by (vm_compute; reflexivity).
  split; [exact Hwf|]. split; [exact Hp|].
  destruct (@denylisted_names_are_gone exact_corr customers customers_pruned
              Hwf Hp) as [Hgone Hnone].
  split; [|exact Hnone]. apply Hgone. simpl. tauto.
Defined.


Lemma pruning_is_idempotent_witness :
  wf customers /\
  @prune exact_corr customers = inr customers_pruned /\
  @prune exact_corr customers_pruned = inr customers_pruned.
Proof.
  assert (wf customers) as Hwf by solve_wf.
  assert (@prune exact_corr customers = inr customers_pruned) as Hp
    by (vm_compute; reflexivity).
  split; [exact Hwf|]. split; [exact Hp|].
  exact (proj1 (@pruning_is_idempotent exact_corr customers customers_pruned
                  Hwf Hp)).
Defined.


Lemma script_writes_the_pruned_table_witness :
  wf customers /\
  exists d c st' out,
    @main exact_corr customers empty_store = Done (d, c) st' /\
    heap st' !! c = Some out /\
    In (ToCsv "C:/projet/projet_ml_retail/data/processed/data_cleaned_v2.csv"
          out) (output st').
Proof.
  assert (wf customers) as Hwf by solve_wf.
  split; [exact Hwf|].
  destruct (@script_writes_the_pruned_table exact_corr customers empty_store
              Hwf) as (d & c & st' & out & Hm & Hc & Ho & _).
  exists d, c, st', out. split; [exact Hm|]. split; [exact Hc|].
  rewrite Ho. simpl. tauto.
Defined.

(** X7 on the three columns of [sparse], all with missing values. *)
Lemma analyser_nan_lists_columns_with_missing_witness :
  wf sparse /\ empty sparse = false /\
  analyser_nan sparse
  = Some [mkNanRow "Empty" 3 100;
          mkNanRow "Flat" 1 (3333 # 100);
          mkNanRow "Mixed" 1 (3333 # 100)] /\
  exists s,
    In ("Flat", s) (cols sparse) /\
    (0 < isna_sum s)%nat /\
    1%nat = isna_sum s /\
    rounded_to 2 ((Z.of_nat (isna_sum s) # Pos.of_nat (nrows sparse)) * 100)%Q
      (3333 # 100).
Proof.
  assert (wf sparse) as Hwf by solve_wf.
  assert (analyser_nan sparse
          = Some [mkNanRow "Empty" 3 100;
                  mkNanRow "Flat" 1 (3333 # 100);
                  mkNanRow "Mixed" 1 (3333 # 100)]) as Hr
    by (vm_compute; reflexivity).
  split; [exact Hwf|]. split; [reflexivity|]. split; [exact Hr|].
  destruct (analyser_nan_lists_columns_with_missing sparse Hwf eq_refl)
    as (report & Hr' & Hrows & _).
  rewrite Hr in Hr'. injection Hr' as <-.
  exact (Hrows (mkNanRow "Flat" 1 (3333 # 100))
           (or_intror (or_introl eq_refl))).
Defined.

Lemma analyser_nan_rows_in_range_witness :
  wf customers /\
  analyser_nan customers = Some [mkNanRow "Note" 2 50] /\
  (1 <= 2 <= nrows customers)%nat /\ (0 <= 50)%Q /\ (50 <= 100)%Q.
Proof.
  assert (wf customers) as Hwf by solve_wf.
  assert (analyser_nan customers = Some [mkNanRow "Note" 2 50]) as Hr
    by (vm_compute; reflexivity).
  split; [exact Hwf|]. split; [exact Hr|].
  exact (analyser_nan_rows_in_range customers [mkNanRow "Note" 2 50]
           (mkNanRow "Note" 2 50) Hwf Hr (or_introl eq_refl)).
Defined.

Lemma pruned_table_missing_at_most_40_witness :
  wf sparse /\
  @prune exact_corr sparse
  = inr (mkDF 3 [("Mixed", NumCol [Some 1%Q; Some 2%Q; None])]) /\
  (Pourcentage (mkNanRow "Mixed" 1 (3333 # 100)) <= 40)%Q.
Proof.
  assert (wf sparse) as Hwf by solve_wf.
  assert (@prune exact_corr sparse
          = inr (mkDF 3 [("Mixed", NumCol [Some 1%Q; Some 2%Q; None])]))
    as Hp by (vm_compute; reflexivity).
  assert (analyser_nan (mkDF 3 [("Mixed", NumCol [Some 1%Q; Some 2%Q; None])])
          = Some [mkNanRow "Mixed" 1 (3333 # 100)]) as Hr
    by (vm_compute; reflexivity).
  split; [exact Hwf|]. split; [exact Hp|].
  exact (@pruned_table_missing_at_most_40 exact_corr sparse
           (mkDF 3 [("Mixed", NumCol [Some 1%Q; Some 2%Q; None])])
           [mkNanRow "Mixed" 1 (3333 # 100)]
           (mkNanRow "Mixed" 1 (3333 # 100))
           Hwf Hp Hr (or_introl eq_refl)).
Defined.

Lemma outliers_of_a_column_without_value_witness :
  wf sparse /\ detecter_outliers sparse "Empty" = inr (0%nat, None, None).
Proof.
  assert (wf sparse) as Hwf by solve_wf.
  split; [exact Hwf|].
  apply (outliers_of_a_column_without_value sparse "Empty"
           [None; None; None] Hwf).
  - simpl. tauto.
  - reflexivity.
Defined.

Lemma outliers_of_a_constant_column_witness :
  wf sparse /\
  exists lo hi,
    detecter_outliers sparse "Flat" = inr (0%nat, Some lo, Some hi) /\
    (lo == 5)%Q /\ (hi == 5)%Q.
Proof.
  assert (wf sparse) as Hwf by solve_wf.
  split; [exact Hwf|].
  apply (outliers_of_a_constant_column sparse "Flat"
           [Some 5%Q; None; Some 5%Q] 5 Hwf).
  - simpl. tauto.
  - repeat constructor.
  - discriminate.
Defined.

Lemma outlier_bounds_in_order_witness :
  detecter_outliers one_to_nine_and_100 "v"
  = inr (1%nat, Some (-2240 # 640), Some (9280 # 640)) /\
  (-2240 # 640 <= 9280 # 640)%Q.
Proof.
  assert (detecter_outliers one_to_nine_and_100 "v"
          = inr (1%nat, Some (-2240 # 640), Some (9280 # 640))) as Hd
    by (vm_compute; reflexivity).
  split; [exact Hd|].
  exact (outlier_bounds_in_order one_to_nine_and_100 "v" 1
           (-2240 # 640) (9280 # 640) Hd).
Defined.

Lemma lower_threshold_keeps_pairs_witness :
  exists report,
    snd (@analyser_correlation exact_corr opposite (8 # 10) false)
    = Some report /\
    forall row, In row [mkCorrRow "up" "down" 1] -> In row report.
Proof.
  assert (8 # 10 <= 1)%Q as Hle by discriminate.
  assert (snd (@analyser_correlation exact_corr opposite 1 true)
          = Some [mkCorrRow "up" "down" 1]) as Hr
    by (vm_compute; reflexivity).
  exact (@lower_threshold_keeps_pairs exact_corr opposite (8 # 10) 1
           false true [mkCorrRow "up" "down" 1] Hle Hr).
Defined.

Lemma summary_total_is_sum_of_report_witness :
  analyser_nan customers = Some [mkNanRow "Note" 2 50] /\
  In (TotalNaN 2) (@resume_dataset eight_bytes customers).
Proof.
  assert (analyser_nan customers = Some [mkNanRow "Note" 2 50]) as Hr
    by (vm_compute; reflexivity).
  split; [exact Hr|].
  apply (proj1 (@summary_total_is_sum_of_report eight_bytes customers
                  [mkNanRow "Note" 2 50] Hr)).
  reflexivity.
Defined.
